(** * Hand-controller configuration tool: response cleaning, configuration
      parsing and command dispatch

    Shallow embedding of [esp32_controller.py] (class [HandControllerConfig]):
    [clean_response], [parse_config_response], [parse_config_display],
    [process_response], the command handlers ([set_motor_pulley],
    [set_pid_kp], ...), [log_message], [toggle_connection] with [connect]
    and [disconnect], [get_available_ports], and of the command list that
    [build_executable] of [build_exe.py] puts together.

    Modelling conventions.
    - Text is a [string] whose characters are code points below 256.  The
      character predicates of the interpreter ([str.strip], [str.lower],
      [int], [float]) are given on that range.
    - The interpreter's integers are [Z]; [int] turns away a numeral of
      more than 4300 digits, as the interpreter does.  A float is a binary64
      number, given by the rational number it stands for, an infinity or a
      NaN: [float] and the float literals round to the nearest binary64
      number, overflow to an infinity and underflow to zero.  The sign of a
      zero and the rendering of a float inside an f-string are not part of
      the model.
    - Exceptions are explicit: a computation yields [Return v] or [Raise e]
      together with the state reached, so that assignments made before an
      exception survive it, as in the interpreter.
    - Widget traffic ([*.set], [update_config_display], [messagebox.*],
      [response_text.insert], [log_message], [print]) neither raises nor
      touches [self.config]; it is left out.  The value a handler reads from
      an entry widget or a check box is an input of the handler, and what a
      handler puts back into its check box is its result.
    - The serial port is seen through the commands handed to
      [serial_port.write], kept in the order of the calls. *)

From Stdlib Require Import String Ascii List Bool ZArith NArith Lia.
From Stdlib Require Import QArith DecimalString DecimalPos FinFun.
From Stdlib Require DecimalFacts DecimalZ.
Import ListNotations.
Local Open Scope string_scope.
Local Open Scope list_scope.
Local Close Scope Q_scope.

(** ** The interpreter's string primitives *)

Module Py.

Definition code (c : ascii) : N := N_of_ascii c.

Definition in_range (lo hi c : ascii) : bool :=
  ((code lo <=? code c) && (code c <=? code hi))%N.

(** [c.isspace()]: TAB..CR, FS..US, SPACE, NEL and NBSP. *)
Definition isspace (c : ascii) : bool :=
  in_range "009" "013" c || in_range "028" "032" c
  || (c =? "133")%char || (c =? "160")%char.

Definition isdigit (c : ascii) : bool := in_range "0" "9" c.

Definition digit_value (c : ascii) : Z := Z.of_N (code c) - 48.

(** [c.lower()]: A-Z and the capital letters of the Latin-1 supplement
    (all of U+00C0..U+00DE but the multiplication sign). *)
Definition lower_char (c : ascii) : ascii :=
  if in_range "A" "Z" c || (in_range "192" "222" c && negb (c =? "215")%char)
  then ascii_of_N (code c + 32)
  else c.

Fixpoint lower (s : string) : string :=
  match s with
  | "" => ""
  | String c s' => String (lower_char c) (lower s')
  end.

Fixpoint lstrip (s : string) : string :=
  match s with
  | "" => ""
  | String c s' => if isspace c then lstrip s' else s
  end.

Fixpoint rstrip (s : string) : string :=
  match s with
  | "" => ""
  | String c s' =>
      match rstrip s' with
      | "" => if isspace c then "" else String c ""
      | r => String c r
      end
  end.

(** [s.strip()] *)
Definition strip (s : string) : string := rstrip (lstrip s).

(** [s.startswith(p)] *)
Fixpoint startswith (p s : string) : bool :=
  match p, s with
  | "", _ => true
  | String _ _, "" => false
  | String a p', String b s' => (a =? b)%char && startswith p' s'
  end.

(** [sub in s] *)
Fixpoint contains (sub s : string) : bool :=
  startswith sub s ||
  match s with
  | "" => false
  | String _ s' => contains sub s'
  end.

(** [x in xs] for a list of strings *)
Definition mem (x : string) (xs : list string) : bool :=
  existsb (String.eqb x) xs.

Fixpoint drop (n : nat) (s : string) : string :=
  match n, s with
  | O, _ => s
  | S _, "" => ""
  | S k, String _ s' => drop k s'
  end.

Definition push (c : ascii) (parts : list string) : list string :=
  match parts with
  | [] => [String c ""]
  | h :: t => String c h :: t
  end.

(** [s.split(sep)] for a non-empty [sep]: cut at the leftmost occurrences,
    never overlapping.  [skip] counts the characters of the occurrence just
    found that are still to be passed over. *)
Fixpoint split_from (sep : string) (skip : nat) (s : string) : list string :=
  match s with
  | "" => [""]
  | String c s' =>
      match skip with
      | S k => split_from sep k s'
      | O =>
          if startswith sep s
          then "" :: split_from sep (String.length sep - 1) s'
          else push c (split_from sep 0 s')
      end
  end.

Definition split (sep s : string) : list string := split_from sep 0 s.

(** [s.split(sep, 1)] *)
Fixpoint split1 (sep s : string) : list string :=
  match s with
  | "" => [""]
  | String c s' =>
      if startswith sep s then [""; drop (String.length sep) s]
      else push c (split1 sep s')
  end.

(** [s.split()]: the maximal runs of non-blank characters. *)
Fixpoint split_ws (s : string) : list string :=
  match s with
  | "" => []
  | String c s' =>
      if isspace c then split_ws s'
      else match s' with
           | "" => [String c ""]
           | String c' _ =>
               if isspace c' then String c "" :: split_ws s'
               else push c (split_ws s')
           end
  end.

(** [sep.join(parts)] *)
Definition join (sep : string) (parts : list string) : string :=
  String.concat sep parts.

(** [str(n)] for an integer; the interpreter gives it for an integer of at
    most 4300 digits. *)
Definition str_of_int (n : Z) : string := NilZero.string_of_int (Z.to_int n).

Definition nl : string := String "010" "".
Definition esc : ascii := "027"%char.

(** *** Exceptions *)

Inductive exn : Set := ValueError | IndexError | TclError.

Inductive outcome (A : Type) : Type :=
| Return (a : A)
| Raise (e : exn).
Arguments Return {A} a.
Arguments Raise {A} e.

(** [xs[i]] *)
Definition index {A : Type} (xs : list A) (i : nat) : outcome A :=
  match nth_error xs i with
  | Some x => Return x
  | None => Raise IndexError
  end.

(** *** Numerals *)

(** A run [digit ("_"? digit)*], read greedily: the value accumulated on top
    of [acc], the number of digits read on top of [n], and what follows.  An
    underscore is taken only between two digits. *)
Fixpoint scan_digits (acc : Z) (n : nat) (s : string) : Z * nat * string :=
  match s with
  | "" => (acc, n, s)
  | String c s' =>
      if isdigit c then scan_digits (10 * acc + digit_value c) (S n) s'
      else if (c =? "_")%char && (0 <? n)%nat then
        match s' with
        | String d _ => if isdigit d then scan_digits acc n s' else (acc, n, s)
        | "" => (acc, n, s)
        end
      else (acc, n, s)
  end.

(** An optional sign: [true] for minus. *)
Definition unsign (s : string) : bool * string :=
  match s with
  | String "-" r => (true, r)
  | String "+" r => (false, r)
  | _ => (false, s)
  end.

Definition signed (neg : bool) (v : Z) : Z := if neg then (- v)%Z else v.

(** The blanks that [int] and [float] pass over at both ends of their
    argument: TAB..CR and SPACE, and NEL and NBSP, which they first turn
    into spaces.  FS..US, blanks for [str.strip], are not among them. *)
Definition numeral_space (c : ascii) : bool :=
  in_range "009" "013" c || (c =? " ")%char
  || (c =? "133")%char || (c =? "160")%char.

Fixpoint numeral_lstrip (s : string) : string :=
  match s with
  | "" => ""
  | String c s' => if numeral_space c then numeral_lstrip s' else s
  end.

Fixpoint numeral_rstrip (s : string) : string :=
  match s with
  | "" => ""
  | String c s' =>
      match numeral_rstrip s' with
      | "" => if numeral_space c then "" else String c ""
      | r => String c r
      end
  end.

Definition numeral_strip (s : string) : string :=
  numeral_rstrip (numeral_lstrip s).

(** [sys.int_info.default_max_str_digits] *)
Definition max_str_digits : nat := 4300.

(** [int(s)] in base ten.  A numeral of more than [max_str_digits] digits,
    leading zeros counted, is turned away with a [ValueError]. *)
Definition int (s : string) : outcome Z :=
  let (neg, body) := unsign (numeral_strip s) in
  match scan_digits 0 0 body with
  | (v, S _ as digits, "") =>
      if (max_str_digits <? digits)%nat then Raise ValueError
      else Return (signed neg v)
  | _ => Raise ValueError
  end.

(** A float: a finite binary64 number, given by the rational number it
    stands for, an infinity or a NaN. *)
Inductive pyfloat : Set :=
| Finite (q : Q)
| Infinity (negative : bool)
| NaN.

(** The binary64 number nearest to [q], the one with the even significand
    when two are as near, and an infinity from [2 ^ 1024] on.  [l] is the
    binary exponent of [|q|], [e] the exponent of the last place: 52 places
    below [l], and not below the subnormal exponent -1074. *)
Definition binary64 (q : Q) : pyfloat :=
  let a := Z.abs (Qnum q) in
  let d := Z.pos (Qden q) in
  if (a =? 0)%Z then Finite 0
  else
    let l0 := (Z.log2 a - Z.log2 d)%Z in
    let l := if (a * 2 ^ Z.max 0 (- l0) <? d * 2 ^ Z.max 0 l0)%Z
             then (l0 - 1)%Z else l0 in
    let e := Z.max (l - 52) (-1074) in
    let num := (a * 2 ^ Z.max 0 (- e))%Z in
    let den := (d * 2 ^ Z.max 0 e)%Z in
    let m := (num / den)%Z in
    let r := (num mod den)%Z in
    let m := if (den <? 2 * r)%Z then (m + 1)%Z
             else if (2 * r =? den)%Z && Z.odd m then (m + 1)%Z
             else m in
    if (2 ^ 1024 <=? m * 2 ^ e)%Z then Infinity (Qnum q <? 0)%Z
    else Finite (Qred (Qmake (Z.sgn (Qnum q) * m * 2 ^ Z.max 0 e)
                             (Z.to_pos (2 ^ Z.max 0 (- e))))).

(** The float literal [num/den], as in [10.0] or [0.05]. *)
Definition float_lit (num den : Z) : pyfloat :=
  binary64 (Qmake num (Z.to_pos den)).

(** [m * 10 ^ e], in lowest terms *)
Definition scale10 (m e : Z) : Q :=
  Qred (if (0 <=? e)%Z then Qmake (m * 10 ^ e) 1
        else Qmake m (Z.to_pos (10 ^ (- e)))).

(** The exponent part of a float numeral: absent, or [e]/[E], an optional
    sign and a digit run up to the end of the text. *)
Definition exponent (s : string) : option Z :=
  match s with
  | "" => Some 0%Z
  | String c r =>
      if (c =? "e")%char || (c =? "E")%char then
        let (neg, body) := unsign r in
        match scan_digits 0 0 body with
        | (v, S _, "") => Some (signed neg v)
        | _ => None
        end
      else None
  end.

(** [float(s)]: the numeral is read exactly and rounded once. *)
Definition float (s : string) : outcome pyfloat :=
  let (neg, body) := unsign (numeral_strip s) in
  let word := lower body in
  if mem word ["inf"; "infinity"] then Return (Infinity neg)
  else if (word =? "nan")%string then Return NaN
  else
    let '(i, ni, r1) := scan_digits 0 0 body in
    let '(m, nf, r2) :=
      match r1 with
      | String "." r => scan_digits i 0 r
      | _ => (i, O, r1)
      end in
    match (ni + nf)%nat, exponent r2 with
    | S _, Some e => Return (binary64 (scale10 (signed neg m) (e - Z.of_nat nf)))
    | _, _ => Raise ValueError
    end.

(** [x < y] on floats; every comparison with NaN is false. *)
Definition flt (x y : pyfloat) : bool :=
  match x, y with
  | Finite a, Finite b => negb (Qle_bool b a)
  | Finite _, Infinity neg => negb neg
  | Infinity neg, Finite _ => neg
  | Infinity a, Infinity b => a && negb b
  | _, _ => false
  end.

(** *** Computations: a state, and a value or an exception *)

Definition py (St A : Type) : Type := St -> outcome A * St.

Definition ret {St A} (a : A) : py St A := fun st => (Return a, st).

Definition raise {St A} (e : exn) : py St A := fun st => (Raise e, st).

Definition bind {St A B} (m : py St A) (k : A -> py St B) : py St B :=
  fun st =>
    match m st with
    | (Return a, st') => k a st'
    | (Raise e, st') => (Raise e, st')
    end.

(** A value or exception of a pure expression, inside a computation. *)
Definition eval {St A} (o : outcome A) : py St A := fun st => (o, st).

(** An assignment to the state. *)
Definition modify {St} (f : St -> St) : py St unit := fun st => (Return tt, f st).

(** [try: m  except <those of handles>: h] *)
Definition try_except {St A} (m : py St A) (handles : exn -> bool)
    (h : py St A) : py St A :=
  fun st =>
    match m st with
    | (Raise e, st') => if handles e then h st' else (Raise e, st')
    | r => r
    end.

(** [except:] and [except Exception:] *)
Definition any_exception (e : exn) : bool := true.

(** [except ValueError:] *)
Definition value_error (e : exn) : bool :=
  match e with ValueError => true | _ => false end.

(** [pass], and the end of a body that returns nothing. *)
Definition pass {St} : py St unit := ret tt.

(** [if c: m] *)
Definition when {St} (c : bool) (m : py St unit) : py St unit :=
  if c then m else pass.

(** [for x in xs: body(x)] *)
Fixpoint for_each {St A} (xs : list A) (body : A -> py St unit) : py St unit :=
  match xs with
  | [] => pass
  | x :: xs' => bind (body x) (fun _ => for_each xs' body)
  end.

End Py.

Declare Scope py_scope.
Delimit Scope py_scope with py.
Notation "x <- m ;; k" := (Py.bind m (fun x => k))
  (at level 61, m at next level, right associativity) : py_scope.
Notation "m ;; k" := (Py.bind m (fun _ => k))
  (at level 61, right associativity) : py_scope.

Import Py.
Local Open Scope py_scope.

(** ** The configuration mapping, [self.config] *)

Record Configuration : Set := mkConfiguration {
  invert_throttle : bool;
  level_assistant : bool;
  motor_pulley : Z;
  wheel_pulley : Z;
  wheel_diameter_mm : Z;
  motor_poles : Z;
  ble_connected : bool;
  pid_kp : pyfloat;
  pid_ki : pyfloat;
  pid_kd : pyfloat;
  pid_output_max : pyfloat
}.

(** The mapping built by [__init__]. *)
Definition initial_config : Configuration :=
  {| invert_throttle := false;
     level_assistant := false;
     motor_pulley := 15;
     wheel_pulley := 33;
     wheel_diameter_mm := 115;
     motor_poles := 14;
     ble_connected := false;
     pid_kp := float_lit 4 5;
     pid_ki := float_lit 1 2;
     pid_kd := float_lit 1 20;
     pid_output_max := float_lit 48 1 |}.

(** [self.config[key] = v], one per key. *)
Definition set_invert_throttle (v : bool) (c : Configuration) : Configuration :=
  mkConfiguration v (level_assistant c) (motor_pulley c) (wheel_pulley c)
    (wheel_diameter_mm c) (motor_poles c) (ble_connected c)
    (pid_kp c) (pid_ki c) (pid_kd c) (pid_output_max c).

Definition set_level_assistant (v : bool) (c : Configuration) : Configuration :=
  mkConfiguration (invert_throttle c) v (motor_pulley c) (wheel_pulley c)
    (wheel_diameter_mm c) (motor_poles c) (ble_connected c)
    (pid_kp c) (pid_ki c) (pid_kd c) (pid_output_max c).

Definition set_motor_pulley_teeth (v : Z) (c : Configuration) : Configuration :=
  mkConfiguration (invert_throttle c) (level_assistant c) v (wheel_pulley c)
    (wheel_diameter_mm c) (motor_poles c) (ble_connected c)
    (pid_kp c) (pid_ki c) (pid_kd c) (pid_output_max c).

Definition set_wheel_pulley_teeth (v : Z) (c : Configuration) : Configuration :=
  mkConfiguration (invert_throttle c) (level_assistant c) (motor_pulley c) v
    (wheel_diameter_mm c) (motor_poles c) (ble_connected c)
    (pid_kp c) (pid_ki c) (pid_kd c) (pid_output_max c).

Definition set_wheel_diameter_mm (v : Z) (c : Configuration) : Configuration :=
  mkConfiguration (invert_throttle c) (level_assistant c) (motor_pulley c)
    (wheel_pulley c) v (motor_poles c) (ble_connected c)
    (pid_kp c) (pid_ki c) (pid_kd c) (pid_output_max c).

Definition set_motor_poles_count (v : Z) (c : Configuration) : Configuration :=
  mkConfiguration (invert_throttle c) (level_assistant c) (motor_pulley c)
    (wheel_pulley c) (wheel_diameter_mm c) v (ble_connected c)
    (pid_kp c) (pid_ki c) (pid_kd c) (pid_output_max c).

Definition set_ble_connected (v : bool) (c : Configuration) : Configuration :=
  mkConfiguration (invert_throttle c) (level_assistant c) (motor_pulley c)
    (wheel_pulley c) (wheel_diameter_mm c) (motor_poles c) v
    (pid_kp c) (pid_ki c) (pid_kd c) (pid_output_max c).

Definition set_kp (v : pyfloat) (c : Configuration) : Configuration :=
  mkConfiguration (invert_throttle c) (level_assistant c) (motor_pulley c)
    (wheel_pulley c) (wheel_diameter_mm c) (motor_poles c) (ble_connected c)
    v (pid_ki c) (pid_kd c) (pid_output_max c).

Definition set_ki (v : pyfloat) (c : Configuration) : Configuration :=
  mkConfiguration (invert_throttle c) (level_assistant c) (motor_pulley c)
    (wheel_pulley c) (wheel_diameter_mm c) (motor_poles c) (ble_connected c)
    (pid_kp c) v (pid_kd c) (pid_output_max c).

Definition set_kd (v : pyfloat) (c : Configuration) : Configuration :=
  mkConfiguration (invert_throttle c) (level_assistant c) (motor_pulley c)
    (wheel_pulley c) (wheel_diameter_mm c) (motor_poles c) (ble_connected c)
    (pid_kp c) (pid_ki c) v (pid_output_max c).

Definition set_output_max (v : pyfloat) (c : Configuration) : Configuration :=
  mkConfiguration (invert_throttle c) (level_assistant c) (motor_pulley c)
    (wheel_pulley c) (wheel_diameter_mm c) (motor_poles c) (ble_connected c)
    (pid_kp c) (pid_ki c) (pid_kd c) v.

(** ** Response cleaner *)

(** The character classes of
    [\x1B(?:[@-Z\\-_]|\[[0-?]*[ -/]*[@-~])]. *)
Definition is_single (c : ascii) : bool := in_range "@" "Z" c || in_range "\" "_" c.
Definition is_param (c : ascii) : bool := in_range "0" "?" c.
Definition is_intermediate (c : ascii) : bool := in_range " " "/" c.
Definition is_final (c : ascii) : bool := in_range "@" "~" c.

Fixpoint count_while (p : ascii -> bool) (s : string) : nat :=
  match s with
  | "" => O
  | String c s' => if p c then S (count_while p s') else O
  end.

(** The length of the match of [(?:[@-Z\\-_]|\[[0-?]*[ -/]*[@-~])] at the head
    of [s], if there is one.  The three classes of the second alternative are
    pairwise disjoint, so the greedy runs are the only way to match. *)
Definition escape_len (s : string) : option nat :=
  match s with
  | "" => None
  | String c r =>
      if is_single c then Some 1%nat
      else if (c =? "[")%char then
        let n1 := count_while is_param r in
        let n2 := count_while is_intermediate (drop n1 r) in
        match drop (n1 + n2) r with
        | String f _ => if is_final f then Some (1 + n1 + n2 + 1)%nat else None
        | "" => None
        end
      else None
  end.

(** [ansi_escape.sub('', s)]: every leftmost match is deleted; [skip] counts
    the characters of the current match still to delete. *)
Fixpoint ansi_sub (skip : nat) (s : string) : string :=
  match s with
  | "" => ""
  | String c s' =>
      match skip with
      | S k => ansi_sub k s'
      | O =>
          if (c =? esc)%char then
            match escape_len s' with
            | Some n => ansi_sub n s'
            | None => String c (ansi_sub 0 s')
            end
          else String c (ansi_sub 0 s')
      end
  end.

Definition ansi_escape_sub (s : string) : string := ansi_sub 0 s.

Definition skip_patterns : list string :=
  [ "I ("; "USB_SERIAL: Processing command:";
    "USB_SERIAL: Parsed command type:";
    "USB_SERIAL: Motor pulley teeth set to:";
    "USB_SERIAL: Wheel pulley teeth set to:";
    "USB_SERIAL: Wheel diameter set to:";
    "USB_SERIAL: Motor poles set to:";
    "USB_SERIAL: Throttle inversion:";
    "USB_SERIAL: Level assistant:";
    "USB_SERIAL: Odometer reset";
    "USB_SERIAL: Configuration:";
    "USB_SERIAL: Available commands:";
    "USB_SERIAL: Unknown command:" ].

(** One turn of the loop of [clean_response] on the stripped line: [true]
    when the line reaches [filtered_lines.append]. *)
Definition keep_line (line : string) : bool :=
  if (line =? "")%string then false
  else if existsb (fun skip_pattern => contains skip_pattern line) skip_patterns
  then false
  else if mem line [">"; ""] then false
  else true.

Definition filter_lines (lines : list string) : list string :=
  filter keep_line (map strip lines).

Definition clean_response (response : string) : option string :=
  let cleaned := ansi_escape_sub response in
  let lines := split nl cleaned in
  let filtered_lines := filter_lines lines in
  match filtered_lines with
  | [] => None
  | _ => Some (join nl filtered_lines)
  end.

(** ** Config parser *)

(** [self.config[key] = v] *)
Definition assign {A : Type} (setter : A -> Configuration -> Configuration)
    (v : A) : py Configuration unit :=
  modify (setter v).

Definition parse_config_display (response : string) : py Configuration unit :=
  let lines := split nl response in
  for_each lines (fun line =>
    when (contains ":" line)
      (try_except
         (match split1 ":" line with
          | [key; value] =>
              let key := strip key in
              let value := strip value in
              if mem key ["Throttle Inverted"; "Throttle inversion"] then
                assign set_invert_throttle
                  (mem (lower value) ["yes"; "enabled"; "true"])
              else if mem key ["Level Assistant"; "Level assistant"] then
                assign set_level_assistant
                  (mem (lower value) ["yes"; "enabled"; "true"])
              else if mem key ["Motor Pulley Teeth"; "Motor pulley teeth"] then
                v <- eval (int value) ;; assign set_motor_pulley_teeth v
              else if mem key ["Wheel Pulley Teeth"; "Wheel pulley teeth"] then
                v <- eval (int value) ;; assign set_wheel_pulley_teeth v
              else if mem key ["Wheel Diameter"; "Wheel diameter"] then
                diameter <- eval (if contains " " value
                                  then index (split_ws value) 0
                                  else Return value) ;;
                v <- eval (int diameter) ;; assign set_wheel_diameter_mm v
              else if mem key ["Motor Poles"; "Motor poles"] then
                v <- eval (int value) ;; assign set_motor_poles_count v
              else if mem key ["BLE Connected"; "BLE connected"] then
                assign set_ble_connected
                  (mem (lower value) ["yes"; "connected"; "true"])
              else pass
          | _ => raise ValueError
          end)
         any_exception pass)).

Definition parse_config_response (response : string) : py Configuration unit :=
  try_except
    ((if contains "Throttle inversion: ENABLED" response then
        assign set_invert_throttle true
      else if contains "Throttle inversion: DISABLED" response then
        assign set_invert_throttle false
      else pass) ;;
     (if contains "Level assistant: ENABLED" response then
        assign set_level_assistant true
      else if contains "Level assistant: DISABLED" response then
        assign set_level_assistant false
      else pass) ;;
     when (contains "PID Kp set to:" response)
       (try_except
          (text <- eval (index (split "PID Kp set to:" response) 1) ;;
           kp <- eval (float (strip text)) ;;
           assign set_kp kp)
          any_exception pass) ;;
     when (contains "PID Ki set to:" response)
       (try_except
          (text <- eval (index (split "PID Ki set to:" response) 1) ;;
           ki <- eval (float (strip text)) ;;
           assign set_ki ki)
          any_exception pass) ;;
     when (contains "PID Kd set to:" response)
       (try_except
          (text <- eval (index (split "PID Kd set to:" response) 1) ;;
           kd <- eval (float (strip text)) ;;
           assign set_kd kd)
          any_exception pass) ;;
     when (contains "PID Output Max set to:" response)
       (try_except
          (text <- eval (index (split "PID Output Max set to:" response) 1) ;;
           output_max <- eval (float (strip text)) ;;
           assign set_output_max output_max)
          any_exception pass) ;;
     when (contains "=== Level Assistant PID Parameters ===" response)
       (let lines := split nl response in
        for_each lines (fun line =>
          if contains "Kp (Proportional):" line then
            try_except
              (text <- eval (index (split ":" line) 1) ;;
               kp <- eval (float (strip text)) ;;
               assign set_kp kp)
              any_exception pass
          else if contains "Ki (Integral):" line then
            try_except
              (text <- eval (index (split ":" line) 1) ;;
               ki <- eval (float (strip text)) ;;
               assign set_ki ki)
              any_exception pass
          else if contains "Kd (Derivative):" line then
            try_except
              (text <- eval (index (split ":" line) 1) ;;
               kd <- eval (float (strip text)) ;;
               assign set_kd kd)
              any_exception pass
          else if contains "Output Max:" line then
            try_except
              (text <- eval (index (split ":" line) 1) ;;
               output_max <- eval (float (strip text)) ;;
               assign set_output_max output_max)
              any_exception pass
          else pass)) ;;
     when (contains "Motor pulley teeth set to:" response)
       (try_except
          (text <- eval (index (split "Motor pulley teeth set to:" response) 1) ;;
           teeth <- eval (int (strip text)) ;;
           assign set_motor_pulley_teeth teeth)
          any_exception pass) ;;
     when (contains "Wheel pulley teeth set to:" response)
       (try_except
          (text <- eval (index (split "Wheel pulley teeth set to:" response) 1) ;;
           teeth <- eval (int (strip text)) ;;
           assign set_wheel_pulley_teeth teeth)
          any_exception pass) ;;
     when (contains "Wheel diameter set to:" response)
       (try_except
          (text <- eval (index (split "Wheel diameter set to:" response) 1) ;;
           head <- eval (index (split "mm" text) 0) ;;
           size <- eval (int (strip head)) ;;
           assign set_wheel_diameter_mm size)
          any_exception pass) ;;
     when (contains "Motor poles set to:" response)
       (try_except
          (text <- eval (index (split "Motor poles set to:" response) 1) ;;
           poles <- eval (int (strip text)) ;;
           assign set_motor_poles_count poles)
          any_exception pass) ;;
     (if contains "Current Configuration" response
         || contains "Configuration:" response then
        parse_config_display response
      else if existsb (fun keyword => contains keyword response)
                ["Throttle Inverted:"; "Motor Pulley Teeth:";
                 "Wheel Pulley Teeth:"; "Wheel Diameter:"; "Motor Poles:";
                 "BLE Connected:"] then
        parse_config_display response
      else pass))
    any_exception pass.

(** [if cleaned_response:] holds for a non-empty string only. *)
Definition process_response (response : string) : py Configuration unit :=
  match clean_response response with
  | Some cleaned_response =>
      if (cleaned_response =? "")%string then pass
      else parse_config_response cleaned_response
  | None => pass
  end.

(** ** Command dispatcher *)

(** The argument of [send_serial_command]: the command text, or the text up
    to a float that an f-string renders after it. *)
Inductive command : Set :=
| Plain (text : string)
| WithFloat (text : string) (x : pyfloat).

(** The part of [self] the handlers work on.  [sent] lists the commands
    handed to [serial_port.write] (each followed by a newline), oldest
    first. *)
Record App : Set := mkApp {
  config : Configuration;
  is_connected : bool;
  sent : list command
}.

Definition get_state {St} : py St St := fun st => (Return st, st).

Definition write (c : command) : py App unit :=
  modify (fun st => mkApp (config st) (is_connected st) (sent st ++ [c])).

Definition set_config (f : Configuration -> Configuration) : py App unit :=
  modify (fun st => mkApp (f (config st)) (is_connected st) (sent st)).

Definition send_serial_command (c : command) : py App unit :=
  try_except (write c) any_exception pass.

(** [throttle_var] is what [self.throttle_var.get()] yields when the handler
    starts; the result is what the check box holds when it returns.  Without
    a connection the handler puts the check box back:
    [self.throttle_var.set(not self.throttle_var.get())]. *)
Definition toggle_throttle (throttle_var : bool) : py App bool :=
  self <- get_state ;;
  if negb (is_connected self) then ret (negb throttle_var)
  else
    send_serial_command (Plain "invert_throttle") ;;
    ret throttle_var.

(** The same for [self.level_assist_var]. *)
Definition toggle_level_assistant (level_assist_var : bool) : py App bool :=
  self <- get_state ;;
  if negb (is_connected self) then ret (negb level_assist_var)
  else
    send_serial_command (Plain "level_assistant") ;;
    ret level_assist_var.

Definition reset_odometer : py App unit :=
  self <- get_state ;;
  if negb (is_connected self) then pass
  else send_serial_command (Plain "reset_odometer").

(** [pulley_var] is what [self.pulley_var.get()] yields. *)
Definition set_motor_pulley (pulley_var : outcome Z) : py App unit :=
  self <- get_state ;;
  if negb (is_connected self) then pass
  else
    try_except
      (teeth <- eval pulley_var ;;
       if (teeth <=? 0)%Z || (teeth >? 255)%Z then pass
       else send_serial_command (Plain ("set_motor_pulley " ++ str_of_int teeth)))
      value_error pass.

Definition set_wheel_pulley (wheel_pulley_var : outcome Z) : py App unit :=
  self <- get_state ;;
  if negb (is_connected self) then pass
  else
    try_except
      (teeth <- eval wheel_pulley_var ;;
       if (teeth <=? 0)%Z || (teeth >? 255)%Z then pass
       else send_serial_command (Plain ("set_wheel_pulley " ++ str_of_int teeth)))
      value_error pass.

Definition set_wheel_size (wheel_var : outcome Z) : py App unit :=
  self <- get_state ;;
  if negb (is_connected self) then pass
  else
    try_except
      (size <- eval wheel_var ;;
       if (size <=? 0)%Z || (size >? 255)%Z then pass
       else send_serial_command (Plain ("set_wheel_size " ++ str_of_int size)))
      value_error pass.

Definition set_motor_poles (poles_var : outcome Z) : py App unit :=
  self <- get_state ;;
  if negb (is_connected self) then pass
  else
    try_except
      (poles <- eval poles_var ;;
       if (poles <=? 0)%Z || (poles >? 255)%Z then pass
       else send_serial_command (Plain ("set_motor_poles " ++ str_of_int poles)))
      value_error pass.

Definition get_config : py App unit :=
  self <- get_state ;;
  if negb (is_connected self) then pass
  else send_serial_command (Plain "get_config").

Definition show_help : py App unit :=
  self <- get_state ;;
  if negb (is_connected self) then pass
  else send_serial_command (Plain "help").

(** [result] is the answer to [messagebox.askyesno]. *)
Definition calibrate_throttle (result : bool) : py App unit :=
  self <- get_state ;;
  if negb (is_connected self) then pass
  else when result (send_serial_command (Plain "calibrate_throttle")).

Definition get_calibration : py App unit :=
  self <- get_state ;;
  if negb (is_connected self) then pass
  else send_serial_command (Plain "get_calibration").

(** [pid_kp_var] is what [self.pid_kp_var.get()] yields. *)
Definition set_pid_kp (pid_kp_var : outcome pyfloat) : py App unit :=
  self <- get_state ;;
  if negb (is_connected self) then pass
  else
    try_except
      (kp <- eval pid_kp_var ;;
       if flt kp (float_lit 0 1) || flt (float_lit 10 1) kp then pass
       else
         set_config (set_kp kp) ;;
         send_serial_command (WithFloat "set_pid_kp " kp))
      any_exception pass.

Definition set_pid_ki (pid_ki_var : outcome pyfloat) : py App unit :=
  self <- get_state ;;
  if negb (is_connected self) then pass
  else
    try_except
      (ki <- eval pid_ki_var ;;
       if flt ki (float_lit 0 1) || flt (float_lit 2 1) ki then pass
       else
         set_config (set_ki ki) ;;
         send_serial_command (WithFloat "set_pid_ki " ki))
      any_exception pass.

Definition set_pid_kd (pid_kd_var : outcome pyfloat) : py App unit :=
  self <- get_state ;;
  if negb (is_connected self) then pass
  else
    try_except
      (kd <- eval pid_kd_var ;;
       if flt kd (float_lit 0 1) || flt (float_lit 1 1) kd then pass
       else
         set_config (set_kd kd) ;;
         send_serial_command (WithFloat "set_pid_kd " kd))
      any_exception pass.

Definition set_pid_output_max (pid_output_max_var : outcome pyfloat) : py App unit :=
  self <- get_state ;;
  if negb (is_connected self) then pass
  else
    try_except
      (output_max <- eval pid_output_max_var ;;
       if flt output_max (float_lit 10 1) || flt (float_lit 100 1) output_max then pass
       else
         set_config (set_output_max output_max) ;;
         send_serial_command (WithFloat "set_pid_output_max " output_max))
      any_exception pass.

Definition get_pid_params : py App unit :=
  self <- get_state ;;
  if negb (is_connected self) then pass
  else send_serial_command (Plain "get_pid_params").

(** What the buttons and check boxes of [setup_ui] are bound to, with the
    values the handler reads from the widgets. *)
Inductive action : Type :=
| ToggleThrottle (throttle_var : bool)
| ToggleLevelAssistant (level_assist_var : bool)
| ResetOdometer
| SetMotorPulley (pulley_var : outcome Z)
| SetWheelPulley (wheel_pulley_var : outcome Z)
| SetWheelSize (wheel_var : outcome Z)
| SetMotorPoles (poles_var : outcome Z)
| GetConfig | ShowHelp
| CalibrateThrottle (result : bool)
| GetCalibration
| SetPidKp (pid_kp_var : outcome pyfloat)
| SetPidKi (pid_ki_var : outcome pyfloat)
| SetPidKd (pid_kd_var : outcome pyfloat)
| SetPidOutputMax (pid_output_max_var : outcome pyfloat)
| GetPidParams.

(** What a handler does to [self]; what the two check-box handlers leave in
    their check box is the result of [toggle_throttle] and
    [toggle_level_assistant]. *)
Definition handler (a : action) : py App unit :=
  match a with
  | ToggleThrottle v => toggle_throttle v ;; pass
  | ToggleLevelAssistant v => toggle_level_assistant v ;; pass
  | ResetOdometer => reset_odometer
  | SetMotorPulley v => set_motor_pulley v
  | SetWheelPulley v => set_wheel_pulley v
  | SetWheelSize v => set_wheel_size v
  | SetMotorPoles v => set_motor_poles v
  | GetConfig => get_config
  | ShowHelp => show_help
  | CalibrateThrottle r => calibrate_throttle r
  | GetCalibration => get_calibration
  | SetPidKp v => set_pid_kp v
  | SetPidKi v => set_pid_ki v
  | SetPidKd v => set_pid_kd v
  | SetPidOutputMax v => set_pid_output_max v
  | GetPidParams => get_pid_params
  end.

(** ** Log formatting *)

(** The text [log_message] inserts at the end of the response area, or
    nothing for the help line it skips. *)
Definition log_message (message : string) : option string :=
  if startswith "Sent:" message then
    Some ("  " ++ message ++ nl)%string
  else if contains "set to:" message then
    Some ("[OK] " ++ message ++ nl)%string
  else if contains "Throttle inversion:" message then
    let status := if contains "ENABLED" message then "enabled" else "disabled" in
    Some ("[OK] Throttle inversion: " ++ status ++ nl)%string
  else if contains "Level assistant:" message then
    let status := if contains "ENABLED" message then "enabled" else "disabled" in
    Some ("[OK] Level assistant: " ++ status ++ nl)%string
  else if contains "Odometer reset successfully" message then
    Some ("[OK] " ++ message ++ nl)%string
  else if contains "Odometer reset" message then
    Some ("[OK] " ++ message ++ nl)%string
  else if contains "Unknown command:" message then
    Some ("[ERROR] " ++ message ++ nl)%string
  else if contains "=== Hand Controller Commands ===" message then
    Some (message ++ nl)%string
  else if contains "help" message && contains "Show this help message" message then
    None
  else if existsb (fun cmd => contains cmd message)
            ["invert_throttle"; "level_assistant"; "reset_odometer";
             "set_motor_pulley"; "set_wheel_pulley"; "set_wheel_size";
             "set_motor_poles"; "get_config"] then
    Some ("  " ++ message ++ nl)%string
  else if contains "calibrate_throttle" message
          && contains "Manually calibrate throttle range" message then
    Some ("  " ++ message ++ nl)%string
  else if contains "get_calibration" message
          && contains "Show throttle calibration status" message then
    Some ("  " ++ message ++ nl)%string
  else if contains "Calibration progress:" message then
    Some ("[PROGRESS] " ++ message ++ nl)%string
  else if contains "Calibration complete!" message then
    Some ("[OK] " ++ message ++ nl)%string
  else if contains "Calibration failed" message then
    Some ("[ERROR] " ++ message ++ nl)%string
  else if contains "Raw range:" message || contains "Calibrated range:" message then
    Some ("  " ++ message ++ nl)%string
  else if contains "Calibration Status:" message then
    Some ("[STATUS] " ++ message ++ nl)%string
  else if contains "Current ADC Reading:" message
          || contains "Current Mapped Value:" message then
    Some ("  " ++ message ++ nl)%string
  else if contains "Throttle signals were set to neutral during calibration" message then
    Some ("[SAFETY] " ++ message ++ nl)%string
  else if contains "Calibrated Min Value:" message
          || contains "Calibrated Max Value:" message
          || contains "Calibrated Range:" message then
    Some ("  " ++ message ++ nl)%string
  else
    Some (message ++ nl)%string.

(** ** Connection *)

Module Connection.

(** [self.serial_port], by the path of the device it is open on, and
    [self.is_connected]. *)
Record Link : Set := mkLink {
  serial_port : option string;
  is_connected : bool
}.

(** The link [__init__] sets up. *)
Definition initial : Link := mkLink None false.

(** [opening] is what [serial.Serial(port=self.port_var.get(), ...)] yields:
    the open port, or an exception. *)
Definition connect (opening : outcome string) : py Link unit :=
  try_except
    (opened <- eval opening ;;
     modify (fun self => mkLink (Some opened) (is_connected self)) ;;
     modify (fun self => mkLink (serial_port self) true))
    any_exception pass.

Definition disconnect : py Link unit :=
  self <- get_state ;;
  match serial_port self with
  | Some _ => modify (fun self => mkLink None (is_connected self))
  | None => pass
  end ;;
  modify (fun self => mkLink (serial_port self) false).

Definition toggle_connection (opening : outcome string) : py Link unit :=
  self <- get_state ;;
  if negb (is_connected self) then connect opening else disconnect.

(** The link after the connection button was pressed once for each entry of
    [openings], what opening the chosen port would yield at that moment. *)
Fixpoint presses (openings : list (outcome string)) (self : Link) : Link :=
  match openings with
  | [] => self
  | opening :: rest => presses rest (snd (toggle_connection opening self))
  end.

End Connection.

(** ** Port enumeration *)

(** [get_available_ports]: [platform] is [sys.platform], [glob] the file
    names a pattern matches, [openable] says whether [serial.Serial(port)]
    opens the device or raises [OSError] or [SerialException].  [None]
    stands for the [EnvironmentError] of an unsupported platform. *)
Definition get_available_ports (platform : string)
    (glob : string -> list string) (openable : string -> bool)
    : option (list string) :=
  let candidates :=
    if startswith "win" platform then
      Some (map (fun i => ("COM" ++ str_of_int (Z.of_nat i + 1))%string) (seq 0 256))
    else if startswith "linux" platform || startswith "cygwin" platform then
      Some (glob "/dev/tty[A-Za-z]*")
    else if startswith "darwin" platform then
      Some (glob "/dev/tty.*")
    else None in
  match candidates with
  | Some ports => Some (filter openable ports)
  | None => None
  end.

(** ** The build command of [build_exe.py] *)

(** The list [build_executable] hands to [subprocess.check_call].  The three
    first arguments are the answers of [os.path.exists] in the order of the
    calls: "requirements.txt", "icon.ico", "requirements.txt" again. *)
Definition build_command (requirements_found icon_found requirements_still_found : bool)
    (platform : string) : list string :=
  let cmd :=
    [ "pyinstaller"; "--onefile"; "--windowed"; "--name=ESP32_Controller";
      "--icon=icon.ico"; "esp32_controller.py" ] in
  let cmd :=
    if requirements_found then
      if startswith "win" platform
      then cmd ++ ["--add-data=requirements.txt;."]
      else cmd ++ ["--add-data=requirements.txt:."]
    else cmd in
  let cmd :=
    if negb icon_found
    then filter (fun arg => negb (startswith "--icon" arg)) cmd
    else cmd in
  let cmd :=
    if negb requirements_still_found
    then filter (fun arg => negb (startswith "--add-data" arg)) cmd
    else cmd in
  cmd.

(** ** Vocabulary of the statements *)

(** The newline character. *)
Definition nlc : ascii := "010"%char.

(** [c] occurs in [s]. *)
Fixpoint occurs (c : ascii) (s : string) : bool :=
  match s with
  | "" => false
  | String a s' => (c =? a)%char || occurs c s'
  end.

(** [s] does not start with a blank. *)
Definition head_ok (s : string) : Prop :=
  match s with
  | "" => True
  | String c _ => isspace c = false
  end.

(** [w] is exactly one match of the escape pattern. *)
Definition is_escape_sequence (w : string) : bool :=
  match w with
  | "" => false
  | String c body =>
      (c =? esc)%char &&
      match escape_len body with
      | Some n => (n =? String.length body)%nat
      | None => false
      end
  end.

(** [m] never raises. *)
Definition returns {St A} (m : py St A) : Prop :=
  forall st, exists a, fst (m st) = Return a.

(** [m] leaves the component [f] of the state as it was, raising or not. *)
Definition keeps {St A V} (f : St -> V) (m : py St A) : Prop :=
  forall st, f (snd (m st)) = f st.

(** [m] never raises and turns the component [f] into [g] of it. *)
Definition updates {St A V} (f : St -> V) (g : V -> V) (m : py St A) : Prop :=
  returns m /\ forall st, f (snd (m st)) = g (f st).

(** The test that sends a response to [parse_config_display]. *)
Definition display_requested (response : string) : bool :=
  contains "Current Configuration" response
  || contains "Configuration:" response
  || existsb (fun keyword => contains keyword response)
       ["Throttle Inverted:"; "Motor Pulley Teeth:"; "Wheel Pulley Teeth:";
        "Wheel Diameter:"; "Motor Poles:"; "BLE Connected:"].

(** The header that sends a response to the loop over the PID lines. *)
Definition pid_header : string := "=== Level Assistant PID Parameters ===".

(** The value a "set to:" rule leaves in its field: the one read after the
    marker, or the old one when the marker is absent or the conversion
    raises. *)
Definition echoed {V : Type} (marker : string) (conv : string -> outcome V)
    (response : string) (old : V) : V :=
  if contains marker response then
    match index (split marker response) 1 with
    | Return text =>
        match conv text with
        | Return v => v
        | Raise _ => old
        end
    | Raise _ => old
    end
  else old.

(** The value the first two rules leave in a switch. *)
Definition switched (enabled disabled : string) (response : string)
    (old : bool) : bool :=
  if contains enabled response then true
  else if contains disabled response then false
  else old.

(** [int(text.split("mm")[0].strip())] *)
Definition before_unit (text : string) : outcome Z :=
  match index (split "mm" text) 0 with
  | Return head => int (strip head)
  | Raise e => Raise e
  end.

(** A display line [label ++ ":" ++ payload] whose label asks for an integer
    that the payload does not give. *)
Definition bad_numeric_entry (label payload : string) : Prop :=
  (In label ["Motor Pulley Teeth"; "Motor pulley teeth";
             "Wheel Pulley Teeth"; "Wheel pulley teeth";
             "Motor Poles"; "Motor poles"]
   /\ exists e, int (strip payload) = Raise e)
  \/
  (In label ["Wheel Diameter"; "Wheel diameter"]
   /\ exists e,
        match (if contains " " (strip payload)
               then index (split_ws (strip payload)) 0
               else Return (strip payload)) with
        | Return diameter => int diameter
        | Raise e' => Raise e'
        end = Raise e).

(** The float a line of the PID block leaves in the field of [label]: the
    one read after the first colon when the line holds [label] and none of
    the labels [earlier], which are tested before it, and that text
    converts; the old one otherwise. *)
Definition pid_line (earlier : list string) (label line : string)
    (old : pyfloat) : pyfloat :=
  if existsb (fun tested => contains tested line) earlier then old
  else if contains label line then
    match index (split ":" line) 1 with
    | Return text =>
        match float (strip text) with
        | Return v => v
        | Raise _ => old
        end
    | Raise _ => old
    end
  else old.

(** The float the loop over the PID lines leaves in the field of [label]:
    with the header in the response, what its lines leave one after the
    other. *)
Definition pid_block (earlier : list string) (label response : string)
    (old : pyfloat) : pyfloat :=
  if contains pid_header response then
    fold_left (fun v line => pid_line earlier label line v) (split nl response) old
  else old.

(** [int(value.split()[0])] when [value] holds a space, [int(value)]
    otherwise. *)
Definition first_word (value : string) : outcome Z :=
  match (if contains " " value then index (split_ws value) 0 else Return value) with
  | Return diameter => int diameter
  | Raise e => Raise e
  end.

(** The integer a display line leaves in the field spelled [spellings]: the
    one [conv] reads in the trimmed value when the trimmed key is one of the
    spellings and the value converts; the old one otherwise. *)
Definition display_line (spellings : list string) (conv : string -> outcome Z)
    (line : string) (old : Z) : Z :=
  if contains ":" line then
    match split1 ":" line with
    | [key; value] =>
        if mem (strip key) spellings then
          match conv (strip value) with
          | Return v => v
          | Raise _ => old
          end
        else old
    | _ => old
    end
  else old.

(** The integer the display block leaves in a field: when the response asks
    for a display block, what its lines leave one after the other. *)
Definition display_block (spellings : list string) (conv : string -> outcome Z)
    (response : string) (old : Z) : Z :=
  if display_requested response then
    fold_left (fun v line => display_line spellings conv line v)
      (split nl response) old
  else old.

(** The configuration a PID handler leaves: the entered value goes into the
    field when there is a connection, the entry reads as a float and the
    float is not below [lo] nor above [hi]. *)
Definition stored (setter : pyfloat -> Configuration -> Configuration)
    (lo hi : pyfloat) (entry : outcome pyfloat) (self : App) : Configuration :=
  match entry with
  | Return x =>
      if is_connected self && negb (flt x lo || flt hi x)
      then setter x (config self)
      else config self
  | Raise _ => config self
  end.

(** ** Vocabulary for decimal numerals *)

(** The value of a digit string read on top of [acc]. *)
Fixpoint uint_value (acc : Z) (d : Decimal.uint) : Z :=
  match d with
  | Decimal.Nil => acc
  | Decimal.D0 l => uint_value (10 * acc + 0) l
  | Decimal.D1 l => uint_value (10 * acc + 1) l
  | Decimal.D2 l => uint_value (10 * acc + 2) l
  | Decimal.D3 l => uint_value (10 * acc + 3) l
  | Decimal.D4 l => uint_value (10 * acc + 4) l
  | Decimal.D5 l => uint_value (10 * acc + 5) l
  | Decimal.D6 l => uint_value (10 * acc + 6) l
  | Decimal.D7 l => uint_value (10 * acc + 7) l
  | Decimal.D8 l => uint_value (10 * acc + 8) l
  | Decimal.D9 l => uint_value (10 * acc + 9) l
  end.

(** Every character of [s] satisfies [p]. *)
Fixpoint all_chars (p : ascii -> bool) (s : string) : bool :=
  match s with
  | "" => true
  | String c s' => p c && all_chars p s'
  end.

(** The characters of [str(n)]: digits and the minus sign. *)
Definition numeral_char (c : ascii) : bool := isdigit c || (c =? "-")%char.

(** The characters of [str(n) + " mm"]. *)
Definition measure_char (c : ascii) : bool :=
  numeral_char c || (c =? " ")%char || (c =? "m")%char.

(** ** The command list *)

(** [self.commands], as [__init__] builds it. *)
Definition commands : list string :=
  [ "invert_throttle"; "level_assistant"; "reset_odometer";
    "set_motor_pulley"; "set_wheel_pulley"; "set_wheel_size";
    "set_motor_poles"; "get_config"; "calibrate_throttle"; "get_calibration";
    "set_pid_kp"; "set_pid_ki"; "set_pid_kd"; "set_pid_output_max";
    "get_pid_params"; "help" ].

(** The first word of the text handed to [send_serial_command]; the float of
    an f-string comes after the first blank. *)
Definition command_name (c : command) : outcome string :=
  match c with
  | Plain text => index (split " " text) 0
  | WithFloat text _ => index (split " " text) 0
  end.

(** The four handlers that read an integer entry. *)
Definition reads_integer (a : action) : option (outcome Z) :=
  match a with
  | SetMotorPulley v | SetWheelPulley v | SetWheelSize v | SetMotorPoles v => Some v
  | _ => None
  end.

(** ** Vocabulary for the cleaner *)

(** Two cleaned texts put one after the other, absence counting for
    nothing. *)
Definition merge_cleaned (first second : option string) : option string :=
  match first, second with
  | Some u, Some v => Some (u ++ nl ++ v)%string
  | Some u, None => Some u
  | None, _ => second
  end.

(** ** Vocabulary for repeated responses *)

(** [m] never raises, and either leaves the component [f] as it was or puts
    in it a value that does not depend on the state it starts from. *)
Definition settles {V : Type} (f : Configuration -> V)
    (m : py Configuration unit) : Prop :=
  returns m /\
  ((forall st, f (snd (m st)) = f st) \/
   (exists v, forall st, f (snd (m st)) = v)).

(** ** Vocabulary for the log *)

(** The tags [log_message] puts before a line. *)
Definition log_tags : list string :=
  [""; "  "; "[OK] "; "[ERROR] "; "[PROGRESS] "; "[STATUS] "; "[SAFETY] "].

(** The four status lines [log_message] writes in its own words. *)
Definition status_lines : list string :=
  [ "Throttle inversion: enabled"; "Throttle inversion: disabled";
    "Level assistant: enabled"; "Level assistant: disabled" ].

(** ** Facts about the string primitives *)

Section StringFacts.

Local Arguments Ascii.eqb : simpl never.

Lemma contains_char (c : ascii) (s : string) :
  contains (String c "") s = occurs c s.
Proof.
  induction s as [|a s IH]; simpl; [reflexivity|].
  rewrite IH. destruct (c =? a)%char; reflexivity.
Qed.

Lemma contains_nl (s : string) : contains nl s = occurs nlc s.
Proof. apply contains_char. Qed.

Lemma occurs_app (c : ascii) (a b : string) :
  occurs c (a ++ b) = occurs c a || occurs c b.
Proof.
  induction a as [|x a IH]; simpl; [reflexivity|].
  rewrite IH, orb_assoc. reflexivity.
Qed.

(** *** [strip] *)

Lemma lstrip_head_ok (s : string) : head_ok (lstrip s).
Proof.
  induction s as [|c s IH]; simpl; [exact I|].
  destruct (isspace c) eqn:E; [exact IH | exact E].
Qed.

Lemma lstrip_id (s : string) : head_ok s -> lstrip s = s.
Proof. destruct s as [|c s]; simpl; [reflexivity|]. intros ->. reflexivity. Qed.

Lemma rstrip_head_ok (s : string) : head_ok s -> head_ok (rstrip s).
Proof.
  destruct s as [|c s]; simpl; [trivial|]. intros H.
  destruct (rstrip s); [rewrite H|]; exact H.
Qed.

Lemma rstrip_idem (s : string) : rstrip (rstrip s) = rstrip s.
Proof.
  induction s as [|c s IH]; simpl; [reflexivity|].
  destruct (rstrip s) as [|d r] eqn:E.
  - destruct (isspace c) eqn:Ec; simpl; [reflexivity|]. rewrite Ec. reflexivity.
  - change (rstrip (String c (String d r)))
      with (match rstrip (String d r) with
            | "" => if isspace c then "" else String c ""
            | String a b => String c (String a b)
            end).
    rewrite IH. reflexivity.
Qed.

Lemma strip_idem (s : string) : strip (strip s) = strip s.
Proof.
  unfold strip.
  rewrite (lstrip_id (rstrip (lstrip s))).
  - apply rstrip_idem.
  - apply rstrip_head_ok, lstrip_head_ok.
Qed.

Lemma occurs_lstrip (c : ascii) (s : string) :
  occurs c s = false -> occurs c (lstrip s) = false.
Proof.
  induction s as [|a s IH]; simpl; [trivial|]. intros H.
  apply orb_false_iff in H as [Ha Hs].
  destruct (isspace a); [auto|]. simpl. rewrite Ha, Hs. reflexivity.
Qed.

Lemma occurs_rstrip (c : ascii) (s : string) :
  occurs c s = false -> occurs c (rstrip s) = false.
Proof.
  induction s as [|a s IH]; simpl; [trivial|]. intros H.
  apply orb_false_iff in H as [Ha Hs]. specialize (IH Hs).
  destruct (rstrip s) as [|d r].
  - destruct (isspace a); simpl; [reflexivity|]. rewrite Ha. reflexivity.
  - simpl in *. rewrite Ha. exact IH.
Qed.

Lemma occurs_strip (c : ascii) (s : string) :
  occurs c s = false -> occurs c (strip s) = false.
Proof. intros H. apply occurs_rstrip, occurs_lstrip, H. Qed.

(** *** [split] and [join] on the newline *)

Lemma split_nl_cons (c : ascii) (s : string) :
  split nl (String c s) =
  if (nlc =? c)%char then "" :: split nl s else push c (split nl s).
Proof.
  change (split nl (String c s))
    with (if (nlc =? c)%char && true then "" :: split nl s
          else push c (split nl s)).
  rewrite andb_true_r. reflexivity.
Qed.

Lemma split_nl_nonempty (s : string) : split nl s <> [].
Proof.
  destruct s as [|c s]; [discriminate|].
  rewrite split_nl_cons.
  destruct (nlc =? c)%char; [discriminate|].
  destruct (split nl s); discriminate.
Qed.

Lemma push_app (c : ascii) (xs ys : list string) :
  xs <> [] -> push c (xs ++ ys) = push c xs ++ ys.
Proof. destruct xs; [congruence | reflexivity]. Qed.

Lemma split_nl_app (a b : string) :
  split nl (a ++ nl ++ b) = split nl a ++ split nl b.
Proof.
  induction a as [|c a IH].
  - reflexivity.
  - change (String c a ++ nl ++ b)%string with (String c (a ++ nl ++ b)).
    rewrite !split_nl_cons, IH.
    destruct (nlc =? c)%char; [reflexivity|].
    apply push_app, split_nl_nonempty.
Qed.

Lemma split_no_nl (s : string) : occurs nlc s = false -> split nl s = [s].
Proof.
  induction s as [|c s IH]; [reflexivity|].
  simpl. intros H. apply orb_false_iff in H as [Hc Hs].
  rewrite split_nl_cons, Hc, (IH Hs). reflexivity.
Qed.

Lemma split_nl_no_nl (s : string) :
  Forall (fun line => occurs nlc line = false) (split nl s).
Proof.
  induction s as [|c s IH]; [repeat constructor|].
  rewrite split_nl_cons.
  destruct (nlc =? c)%char eqn:E; [constructor; [reflexivity | exact IH]|].
  destruct (split nl s) as [|h t]; [repeat constructor; simpl; rewrite E; reflexivity|].
  inversion IH; subst. constructor; [|assumption].
  simpl. rewrite E. assumption.
Qed.

Lemma join_cons2 (sep x y : string) (t : list string) :
  join sep (x :: y :: t) = (x ++ sep ++ join sep (y :: t))%string.
Proof. reflexivity. Qed.

Lemma split_join (lines : list string) :
  lines <> [] ->
  Forall (fun line => occurs nlc line = false) lines ->
  split nl (join nl lines) = lines.
Proof.
  induction lines as [|x [|y t] IH]; intros Hne Hall.
  - congruence.
  - inversion Hall; subst. apply split_no_nl. assumption.
  - inversion Hall; subst.
    rewrite join_cons2, split_nl_app, split_no_nl by assumption.
    rewrite IH by (assumption || discriminate). reflexivity.
Qed.

End StringFacts.

(** ** The response cleaner: what survives *)

Section CleanerFacts.

Local Arguments Ascii.eqb : simpl never.

Lemma keep_line_true (line : string) :
  keep_line line = true ->
  line <> "" /\ line <> ">" /\
  existsb (fun skip_pattern => contains skip_pattern line) skip_patterns = false.
Proof.
  unfold keep_line. intros H.
  destruct (line =? "")%string eqn:E0; [discriminate|].
  destruct (existsb _ skip_patterns) eqn:E1; [discriminate|].
  destruct (mem line [">"; ""]) eqn:E2; [discriminate|].
  apply String.eqb_neq in E0.
  repeat split; trivial.
  intros ->. discriminate.
Qed.

Lemma keep_line_false (line : string) :
  keep_line line = false <->
  line = "" \/ line = ">" \/
  exists p, In p skip_patterns /\ contains p line = true.
Proof.
  unfold keep_line. split.
  - intros H.
    destruct (line =? "")%string eqn:E0; [left; apply String.eqb_eq, E0|].
    destruct (existsb _ skip_patterns) eqn:E1.
    + right; right. apply existsb_exists in E1. exact E1.
    + destruct (mem line [">"; ""]) eqn:E2; [|discriminate].
      unfold mem in E2. apply existsb_exists in E2 as [x [Hin Hx]].
      apply String.eqb_eq in Hx. subst x.
      destruct Hin as [<-|[<-|[]]]; auto.
  - intros [->|[->|[p [Hin Hp]]]]; try reflexivity.
    destruct (line =? "")%string; [reflexivity|].
    assert (E : existsb (fun skip_pattern => contains skip_pattern line)
                  skip_patterns = true)
      by (apply existsb_exists; exists p; auto).
    rewrite E. reflexivity.
Qed.

Lemma filter_lines_cons (line : string) (lines : list string) :
  filter_lines (line :: lines) =
  if keep_line (strip line) then strip line :: filter_lines lines
  else filter_lines lines.
Proof. reflexivity. Qed.

(** Every surviving line is trimmed, passes the tests of the loop and holds
    no newline. *)
Lemma filter_lines_kept (lines : list string) :
  Forall (fun line => occurs nlc line = false) lines ->
  Forall (fun line => occurs nlc line = false /\ strip line = line /\
                      keep_line line = true)
         (filter_lines lines).
Proof.
  induction 1 as [|l ls Hl Hls IH]; [constructor|].
  rewrite filter_lines_cons.
  destruct (keep_line (strip l)) eqn:E; [|exact IH].
  constructor; [|exact IH].
  repeat split; [apply occurs_strip, Hl | apply strip_idem | exact E].
Qed.

(** Lines that already are as the loop leaves them all survive. *)
Lemma filter_lines_fixed (lines : list string) :
  Forall (fun line => strip line = line /\ keep_line line = true) lines ->
  filter_lines lines = lines.
Proof.
  induction 1 as [|l ls [Hs Hk] Hls IH]; [reflexivity|].
  rewrite filter_lines_cons, Hs, Hk, IH. reflexivity.
Qed.

Lemma filter_lines_nil (lines : list string) :
  filter_lines lines = [] <->
  forall line, In line lines -> keep_line (strip line) = false.
Proof.
  induction lines as [|l ls IH]; [split; [intros _ ? []|reflexivity]|].
  rewrite filter_lines_cons. split.
  - destruct (keep_line (strip l)) eqn:E; [discriminate|].
    intros H line [<-|Hin]; [exact E | apply IH; assumption].
  - intros H. rewrite (H l (or_introl eq_refl)).
    apply IH. intros line Hin. apply H. right. exact Hin.
Qed.

Lemma join_nonempty (x : string) (t : list string) :
  x <> "" -> join nl (x :: t) <> "".
Proof.
  intros Hx. destruct t as [|y t]; [exact Hx|].
  rewrite join_cons2. destruct x; [congruence | discriminate].
Qed.

(** The shape of a non-absent result. *)
Lemma clean_response_some (response text : string) :
  clean_response response = Some text ->
  exists lines,
    lines <> [] /\ text = join nl lines /\
    lines = filter_lines (split nl (ansi_escape_sub response)) /\
    Forall (fun line => occurs nlc line = false /\ strip line = line /\
                        keep_line line = true) lines.
Proof.
  unfold clean_response. intros H.
  pose proof (filter_lines_kept _ (split_nl_no_nl (ansi_escape_sub response))) as K.
  destruct (filter_lines (split nl (ansi_escape_sub response))) as [|x t] eqn:E;
    [discriminate|].
  injection H as <-. exists (x :: t). repeat split; trivial. discriminate.
Qed.

Lemma cleaned_lines (lines : list string) :
  lines <> [] ->
  Forall (fun line => occurs nlc line = false /\ strip line = line /\
                      keep_line line = true) lines ->
  split nl (join nl lines) = lines.
Proof.
  intros Hne Hall. apply split_join; [exact Hne|].
  eapply Forall_impl; [|exact Hall]. intros line [H _]. exact H.
Qed.

End CleanerFacts.

(** C10.  Whatever the input, [clean_response] yields either absence or a
    text that is not empty and whose lines are all trimmed, non-empty and
    different from the lone prompt [">"]; it never yields the empty
    string. *)
Theorem clean_response_lines (response : string) :
  match clean_response response with
  | None => True
  | Some text =>
      text <> "" /\
      Forall (fun line => strip line = line /\ line <> "" /\ line <> ">")
             (split nl text)
  end.
Proof.
  destruct (clean_response response) as [text|] eqn:E; [|exact I].
  apply clean_response_some in E as (lines & Hne & -> & _ & Hall).
  split.
  - destruct lines as [|x t]; [congruence|].
    inversion Hall as [|? ? [_ [_ Hk]] _]; subst.
    apply join_nonempty. apply keep_line_true in Hk. tauto.
  - rewrite (cleaned_lines lines Hne Hall).
    eapply Forall_impl; [|exact Hall].
    intros line (_ & Hs & Hk). apply keep_line_true in Hk. tauto.
Qed.

(** C4, amended.  When the cleaned text holds no match of the escape
    pattern any more, cleaning it again gives the same text. *)
Theorem clean_response_idempotent (response text : string) :
  clean_response response = Some text ->
  ansi_escape_sub text = text ->
  clean_response text = Some text.
Proof.
  intros E Hansi.
  apply clean_response_some in E as (lines & Hne & -> & _ & Hall).
  unfold clean_response.
  rewrite Hansi, (cleaned_lines lines Hne Hall), filter_lines_fixed.
  - destruct lines; [congruence | reflexivity].
  - eapply Forall_impl; [|exact Hall]. intros line (_ & Hs & Hk). auto.
Qed.

Lemma clean_response_idempotent_witness :
  clean_response ("  hello " ++ nl ++ ">" ++ nl ++ " Motor poles set to: 14")
  = Some ("hello" ++ nl ++ "Motor poles set to: 14")%string /\
  clean_response ("hello" ++ nl ++ "Motor poles set to: 14")
  = Some ("hello" ++ nl ++ "Motor poles set to: 14")%string.
Proof.
  split; [reflexivity|].
  apply (clean_response_idempotent
           ("  hello " ++ nl ++ ">" ++ nl ++ " Motor poles set to: 14"));
    reflexivity.
Defined.

(** C4, as stated, fails: deleting an escape sequence can bring the pieces
    of another one together, and the second pass deletes that one. *)
Lemma clean_response_not_idempotent :
  clean_response (String esc (String esc "[0m[0mhello"))
  = Some (String esc "[0mhello") /\
  clean_response (String esc "[0mhello") = Some "hello" /\
  clean_response (String esc "[0mhello") <> Some (String esc "[0mhello").
Proof. repeat split; try reflexivity. discriminate. Qed.

(** C2, amended.  [clean_response] yields absence exactly when every line
    of the input, once the escape sequences are deleted and the line is
    trimmed, is empty, is the lone prompt or holds a verbose-log marker. *)
Theorem clean_response_none_iff (response : string) :
  clean_response response = None <->
  forall line, In line (split nl (ansi_escape_sub response)) ->
    strip line = "" \/ strip line = ">" \/
    exists p, In p skip_patterns /\ contains p (strip line) = true.
Proof.
  unfold clean_response.
  destruct (filter_lines (split nl (ansi_escape_sub response))) as [|x t] eqn:E.
  - split; [intros _ line Hin | reflexivity].
    apply keep_line_false. revert line Hin. apply filter_lines_nil, E.
  - split; [discriminate|]. intros H. exfalso.
    assert (K : filter_lines (split nl (ansi_escape_sub response)) = []).
    { apply filter_lines_nil. intros line Hin. apply keep_line_false, H, Hin. }
    congruence.
Qed.

(** C2, as stated, fails: a text with no marker at all comes back as it
    is. *)
Lemma clean_response_keeps_unmarked :
  existsb (fun marker => contains marker "hello")
    (skip_patterns ++
     ["Throttle inversion:"; "Level assistant:"; "set to:";
      "=== Level Assistant PID Parameters ==="; "Configuration";
      "Throttle Inverted:"; "Motor Pulley Teeth:"; "Wheel Pulley Teeth:";
      "Wheel Diameter:"; "Motor Poles:"; "BLE Connected:"]) = false /\
  clean_response "hello" = Some "hello" /\
  clean_response "hello" <> None.
Proof. repeat split; try reflexivity. discriminate. Qed.

(** ** Escape sequences around a text *)

Section AnsiFacts.

Local Arguments Ascii.eqb : simpl never.

Lemma drop_app (n : nat) (a b : string) :
  (n <= String.length a)%nat -> drop n (a ++ b) = (drop n a ++ b)%string.
Proof.
  revert a. induction n as [|n IH]; intros a H; [reflexivity|].
  destruct a as [|c a]; simpl in *; [lia|]. apply IH. lia.
Qed.

Lemma drop_length (n : nat) (s : string) :
  String.length (drop n s) = (String.length s - n)%nat.
Proof.
  revert s. induction n as [|n IH]; intros s; simpl; [lia|].
  destruct s as [|c s]; simpl; [reflexivity | apply IH].
Qed.

Lemma count_while_le (p : ascii -> bool) (s : string) :
  (count_while p s <= String.length s)%nat.
Proof. induction s as [|c s IH]; simpl; [lia|]. destruct (p c); lia. Qed.

(** A run that ends inside [a] is not changed by what follows [a]. *)
Lemma count_while_app_inside (p : ascii -> bool) (a b : string) :
  (count_while p a < String.length a)%nat ->
  count_while p (a ++ b) = count_while p a.
Proof.
  induction a as [|c a IH]; simpl; [lia|]. intros H.
  destruct (p c); [f_equal; apply IH; lia | reflexivity].
Qed.

(** Nor by a following text whose first character ends the run. *)
Lemma count_while_app_stop (p : ascii -> bool) (a : string) (c : ascii) (b : string) :
  p c = false -> count_while p (a ++ String c b) = count_while p a.
Proof.
  intros Hc. induction a as [|x a IH]; simpl; [rewrite Hc; reflexivity|].
  destruct (p x); [f_equal; exact IH | reflexivity].
Qed.

Lemma escape_len_bound (s : string) (n : nat) :
  escape_len s = Some n -> (n <= String.length s)%nat.
Proof.
  destruct s as [|c r]; [discriminate|]. unfold escape_len.
  destruct (is_single c); [intros [= <-]; simpl; lia|].
  destruct (c =? "[")%char; [|discriminate].
  set (n1 := count_while is_param r).
  set (n2 := count_while is_intermediate (drop n1 r)).
  destruct (drop (n1 + n2) r) as [|f t] eqn:E; [discriminate|].
  destruct (is_final f); [|discriminate]. intros [= <-].
  pose proof (drop_length (n1 + n2) r) as L. rewrite E in L. simpl in *. lia.
Qed.

(** A match found in [s] is the match found in [s ++ t]. *)
Lemma escape_len_app_found (s t : string) (n : nat) :
  escape_len s = Some n -> escape_len (s ++ t) = Some n.
Proof.
  destruct s as [|c r]; [discriminate|].
  change (String c r ++ t)%string with (String c (r ++ t)). unfold escape_len.
  destruct (is_single c); [trivial|].
  destruct (c =? "[")%char; [|discriminate].
  set (n1 := count_while is_param r).
  set (n2 := count_while is_intermediate (drop n1 r)).
  destruct (drop (n1 + n2) r) as [|f u] eqn:E; [discriminate|].
  pose proof (drop_length (n1 + n2) r) as L. rewrite E in L. simpl in L.
  pose proof (drop_length n1 r) as L1.
  assert (H1 : count_while is_param (r ++ t) = n1)
    by (apply count_while_app_inside; fold n1; lia).
  rewrite H1, (drop_app n1 r t) by lia.
  assert (H2 : count_while is_intermediate (drop n1 r ++ t) = n2)
    by (apply count_while_app_inside; fold n2; lia).
  rewrite H2, (drop_app (n1 + n2) r t), E by lia.
  trivial.
Qed.

Lemma esc_classes :
  is_single esc = false /\ is_param esc = false /\
  is_intermediate esc = false /\ is_final esc = false /\
  (esc =? "[")%char = false.
Proof. repeat split; reflexivity. Qed.

(** No match runs across an escape character. *)
Lemma escape_len_app_esc (s t : string) :
  escape_len (s ++ String esc t) = escape_len s.
Proof.
  destruct esc_classes as (Es & Ep & Ei & Ef & Eb).
  destruct s as [|c r].
  - cbn [append]. unfold escape_len. rewrite Es, Eb. reflexivity.
  - change (String c r ++ String esc t)%string with (String c (r ++ String esc t)).
    unfold escape_len.
    destruct (is_single c); [reflexivity|].
    destruct (c =? "[")%char; [|reflexivity].
    rewrite (count_while_app_stop is_param r esc t Ep).
    set (n1 := count_while is_param r).
    pose proof (count_while_le is_param r) as B1. fold n1 in B1.
    rewrite (drop_app n1 r) by lia.
    rewrite (count_while_app_stop is_intermediate (drop n1 r) esc t Ei).
    set (n2 := count_while is_intermediate (drop n1 r)).
    pose proof (count_while_le is_intermediate (drop n1 r)) as B2. fold n2 in B2.
    rewrite drop_length in B2.
    rewrite (drop_app (n1 + n2) r) by lia.
    destruct (drop (n1 + n2) r) as [|f u]; [|reflexivity].
    cbn [append]. rewrite Ef. reflexivity.
Qed.

Lemma ansi_sub_app_skip (b s : string) :
  ansi_sub (String.length b) (b ++ s) = ansi_sub 0 s.
Proof.
  induction b as [|c b IH]; [reflexivity|].
  simpl. destruct s; exact IH.
Qed.

Lemma ansi_sub_all (b : string) : ansi_sub (String.length b) b = "".
Proof. induction b as [|c b IH]; [reflexivity | exact IH]. Qed.

(** The text before an escape character is scanned on its own. *)
Lemma ansi_sub_app_esc (s t : string) (n : nat) :
  (n <= String.length s)%nat ->
  ansi_sub n (s ++ String esc t) = (ansi_sub n s ++ ansi_sub 0 (String esc t))%string.
Proof.
  revert n. induction s as [|c s IH]; intros n Hn.
  - simpl in Hn. replace n with 0%nat by lia. reflexivity.
  - change (String c s ++ String esc t)%string with (String c (s ++ String esc t)).
    destruct n as [|k].
    + cbn [ansi_sub]. rewrite escape_len_app_esc.
      destruct (c =? esc)%char.
      * destruct (escape_len s) as [m|] eqn:E.
        -- apply IH, escape_len_bound, E.
        -- rewrite IH by lia. reflexivity.
      * rewrite IH by lia. reflexivity.
    + cbn [ansi_sub]. apply IH. simpl in Hn. lia.
Qed.

Lemma is_escape_sequence_inv (w : string) :
  is_escape_sequence w = true ->
  exists body, w = String esc body /\ escape_len body = Some (String.length body).
Proof.
  destruct w as [|c body]; [discriminate|]. unfold is_escape_sequence.
  intros H. apply andb_true_iff in H as [Hc H].
  apply Ascii.eqb_eq in Hc. subst c.
  destruct (escape_len body) as [n|] eqn:E; [|discriminate].
  apply Nat.eqb_eq in H. subst n. exists body. auto.
Qed.

Lemma ansi_escape_sub_wrapped (pre post s : string) :
  is_escape_sequence pre = true ->
  is_escape_sequence post = true ->
  ansi_escape_sub (pre ++ s ++ post) = ansi_escape_sub s.
Proof.
  intros Hpre Hpost.
  apply is_escape_sequence_inv in Hpre as (b1 & -> & E1).
  apply is_escape_sequence_inv in Hpost as (b2 & -> & E2).
  unfold ansi_escape_sub.
  change (String esc b1 ++ s ++ String esc b2)%string
    with (String esc (b1 ++ s ++ String esc b2)).
  cbn [ansi_sub]. rewrite Ascii.eqb_refl.
  rewrite (escape_len_app_found b1 _ _ E1), ansi_sub_app_skip.
  rewrite ansi_sub_app_esc by lia.
  cbn [ansi_sub]. rewrite Ascii.eqb_refl, E2, ansi_sub_all.
  induction (ansi_sub 0 s) as [|c r IH]; [reflexivity|].
  simpl. f_equal. exact IH.
Qed.

End AnsiFacts.

(** C5.  Cleaning the example line wrapped in colour codes gives the bare
    line; and for every text [s] and every two escape sequences [pre] and
    [post] (such as ESC[32m and ESC[0m), [pre ++ s ++ post] is cleaned to
    what [s] is cleaned to and leaves the configuration as [s] does. *)
Theorem ansi_wrapping_is_transparent :
  clean_response
    (String esc "[32m" ++ "Level assistant: ENABLED" ++ String esc "[0m")
  = Some "Level assistant: ENABLED" /\
  forall (pre post s : string) (cfg : Configuration),
    is_escape_sequence pre = true ->
    is_escape_sequence post = true ->
    clean_response (pre ++ s ++ post) = clean_response s /\
    process_response (pre ++ s ++ post) cfg = process_response s cfg.
Proof.
  split; [reflexivity|].
  intros pre post s cfg Hpre Hpost.
  assert (E : clean_response (pre ++ s ++ post) = clean_response s).
  { unfold clean_response.
    rewrite (ansi_escape_sub_wrapped pre post s Hpre Hpost). reflexivity. }
  split; [exact E|].
  unfold process_response. rewrite E. reflexivity.
Qed.

Lemma ansi_wrapping_is_transparent_witness :
  process_response
    (String esc "[32m" ++ "Level assistant: ENABLED" ++ String esc "[0m")
    initial_config
  = process_response "Level assistant: ENABLED" initial_config /\
  level_assistant
    (snd (process_response
            (String esc "[32m" ++ "Level assistant: ENABLED" ++ String esc "[0m")
            initial_config)) = true.
Proof.
  split; [|reflexivity].
  apply (proj2 ansi_wrapping_is_transparent
           (String esc "[32m") (String esc "[0m")
           "Level assistant: ENABLED" initial_config);
    reflexivity.
Defined.

(** ** Reasoning about computations: what returns, what a field keeps *)

Section Frame.

Context {St : Type}.

Lemma returns_ret {A} (a : A) : returns (@ret St A a).
Proof. intros st. exists a. reflexivity. Qed.

Lemma returns_pass : returns (@pass St).
Proof. apply returns_ret. Qed.

Lemma returns_modify (g : St -> St) : returns (modify g).
Proof. intros st. exists tt. reflexivity. Qed.

Lemma returns_bind {A B} (m : py St A) (k : A -> py St B) :
  returns m -> (forall a, returns (k a)) -> returns (bind m k).
Proof.
  intros Hm Hk st. unfold bind. destruct (Hm st) as [a Ha].
  destruct (m st) as [[a'|e] st']; simpl in Ha; [|discriminate].
  apply Hk.
Qed.

Lemma returns_try_any {A} (m h : py St A) :
  returns h -> returns (try_except m any_exception h).
Proof.
  intros Hh st. unfold try_except.
  destruct (m st) as [[a|e] st']; [exists a; reflexivity | apply Hh].
Qed.

Lemma returns_try {A} (m h : py St A) (handles : exn -> bool) :
  returns m -> returns (try_except m handles h).
Proof.
  intros Hm st. unfold try_except. destruct (Hm st) as [a Ha].
  destruct (m st) as [[a'|e] st']; simpl in Ha; [|discriminate].
  exists a'. reflexivity.
Qed.

Lemma returns_when (c : bool) (m : py St unit) :
  returns m -> returns (when c m).
Proof. intros H. destruct c; [exact H | apply returns_pass]. Qed.

Lemma returns_for_each {A} (xs : list A) (body : A -> py St unit) :
  (forall x, returns (body x)) -> returns (for_each xs body).
Proof.
  intros H. induction xs as [|x xs IH]; [apply returns_pass|].
  apply returns_bind; auto.
Qed.

Lemma keeps_ret {A V} (f : St -> V) (a : A) : keeps f (ret a).
Proof. intros st. reflexivity. Qed.

Lemma keeps_pass {V} (f : St -> V) : keeps f (@pass St).
Proof. intros st. reflexivity. Qed.

Lemma keeps_raise {A V} (f : St -> V) (e : exn) : keeps f (@raise St A e).
Proof. intros st. reflexivity. Qed.

Lemma keeps_eval {A V} (f : St -> V) (o : outcome A) : keeps f (eval o).
Proof. intros st. reflexivity. Qed.

Lemma keeps_modify {V} (f : St -> V) (g : St -> St) :
  (forall st, f (g st) = f st) -> keeps f (modify g).
Proof. intros H st. apply H. Qed.

Lemma keeps_bind {A B V} (f : St -> V) (m : py St A) (k : A -> py St B) :
  keeps f m -> (forall a, keeps f (k a)) -> keeps f (bind m k).
Proof.
  intros Hm Hk st. unfold bind. specialize (Hm st).
  destruct (m st) as [[a|e] st']; simpl in *; [|exact Hm].
  rewrite Hk. exact Hm.
Qed.

Lemma keeps_try_except {A V} (f : St -> V) (m h : py St A) (handles : exn -> bool) :
  keeps f m -> keeps f h -> keeps f (try_except m handles h).
Proof.
  intros Hm Hh st. unfold try_except. specialize (Hm st).
  destruct (m st) as [[a|e] st']; simpl in *; [exact Hm|].
  destruct (handles e); [rewrite Hh|]; exact Hm.
Qed.

Lemma keeps_when {V} (f : St -> V) (c : bool) (m : py St unit) :
  keeps f m -> keeps f (when c m).
Proof. intros H. destruct c; [exact H | apply keeps_pass]. Qed.

Lemma keeps_for_each {A V} (f : St -> V) (xs : list A) (body : A -> py St unit) :
  (forall x, keeps f (body x)) -> keeps f (for_each xs body).
Proof.
  intros H. induction xs as [|x xs IH]; [apply keeps_pass|].
  apply keeps_bind; auto.
Qed.

(** Sequencing around the one step that writes the component. *)
Lemma updates_bind_l {A B V} (f : St -> V) (g : V -> V)
    (m : py St A) (k : A -> py St B) :
  returns m -> keeps f m -> (forall a, updates f g (k a)) ->
  updates f g (bind m k).
Proof.
  intros Hr Hk Hu. split.
  - apply returns_bind; [exact Hr | intros a; apply Hu].
  - intros st. unfold bind. specialize (Hk st). destruct (Hr st) as [a Ha].
    destruct (m st) as [[a'|e] st']; simpl in *; [|discriminate].
    rewrite (proj2 (Hu a') st'), Hk. reflexivity.
Qed.

Lemma updates_bind_r {A B V} (f : St -> V) (g : V -> V)
    (m : py St A) (k : A -> py St B) :
  updates f g m -> (forall a, returns (k a)) -> (forall a, keeps f (k a)) ->
  updates f g (bind m k).
Proof.
  intros [Hr Hu] Hkr Hkk. split.
  - apply returns_bind; assumption.
  - intros st. unfold bind. specialize (Hu st). destruct (Hr st) as [a Ha].
    destruct (m st) as [[a'|e] st']; simpl in *; [|discriminate].
    rewrite Hkk. exact Hu.
Qed.

Lemma updates_try {A V} (f : St -> V) (g : V -> V) (m h : py St A)
    (handles : exn -> bool) :
  updates f g m -> updates f g (try_except m handles h).
Proof.
  intros [Hr Hu]. split; [apply returns_try, Hr|].
  intros st. unfold try_except. specialize (Hu st). destruct (Hr st) as [a Ha].
  destruct (m st) as [[a'|e] st']; simpl in *; [exact Hu | discriminate].
Qed.

(** Two steps that both write the component, one after the other. *)
Lemma updates_bind {A B V} (f : St -> V) (g1 g2 : V -> V)
    (m : py St A) (k : A -> py St B) :
  updates f g1 m -> (forall a, updates f g2 (k a)) ->
  updates f (fun v => g2 (g1 v)) (bind m k).
Proof.
  intros [Hr Hu] Hk. split.
  - apply returns_bind; [exact Hr | intros a; apply Hk].
  - intros st. unfold bind. specialize (Hu st). destruct (Hr st) as [a Ha].
    destruct (m st) as [[a'|e] st']; simpl in *; [|discriminate].
    rewrite (proj2 (Hk a') st'), Hu. reflexivity.
Qed.

Lemma updates_quiet {A V} (f : St -> V) (m : py St A) :
  returns m -> keeps f m -> updates f (fun v => v) m.
Proof. intros Hr Hk. split; [exact Hr | exact Hk]. Qed.

(** A loop whose body never raises folds what each round does to the
    component. *)
Lemma updates_for_each {A V} (f : St -> V) (g : A -> V -> V)
    (xs : list A) (body : A -> py St unit) :
  (forall x, updates f (g x) (body x)) ->
  updates f (fun v => fold_left (fun w x => g x w) xs v) (for_each xs body).
Proof.
  intros H. induction xs as [|x xs IH].
  - split; [apply returns_pass | intros st; reflexivity].
  - cbn [for_each fold_left].
    apply (updates_bind f (g x) (fun v => fold_left (fun w y => g y w) xs v));
      [apply H | intros _; exact IH].
Qed.

(** A loop that never raises runs its lines one after the other. *)
Lemma for_each_app {A} (xs ys : list A) (body : A -> py St unit) (st : St) :
  (forall x, returns (body x)) ->
  for_each (xs ++ ys) body st = for_each ys body (snd (for_each xs body st)).
Proof.
  intros H. revert st. induction xs as [|x xs IH]; intros st; [reflexivity|].
  cbn [for_each app]. unfold bind. destruct (H x st) as [a Ha].
  destruct (body x st) as [[a'|e] st']; simpl in Ha; [|discriminate].
  apply IH.
Qed.

Lemma returns_unit (m : py St unit) (st : St) :
  returns m -> m st = (Return tt, snd (m st)).
Proof.
  intros H. destruct (H st) as [a Ha].
  destruct (m st) as [[[]|e] st']; simpl in *; [reflexivity | discriminate].
Qed.

End Frame.

(** Discharges [returns] and [keeps] goals by following the shape of the
    computation. *)
Ltac frame :=
  repeat first
    [ progress intros
    | progress cbv zeta
    | apply returns_pass | apply returns_ret | apply returns_modify
    | apply returns_try_any | apply returns_when | apply returns_for_each
    | apply returns_bind
    | apply keeps_pass | apply keeps_ret | apply keeps_raise | apply keeps_eval
    | apply keeps_when | apply keeps_for_each | apply keeps_try_except
    | apply keeps_bind
    | apply keeps_modify; intros []; reflexivity
    | match goal with
      | |- returns (if ?c then _ else _) => destruct c
      | |- keeps _ (if ?c then _ else _) => destruct c
      | |- keeps _ (match ?x with _ => _ end) => destruct x
      end ].

(** One "set to:" step, on its own field. *)
Ltac own_step :=
  split;
  [ frame
  | intros st; unfold echoed, switched, when, try_except, bind, eval, assign,
      modify, pass, ret;
    repeat (cbn beta iota;
            match goal with
            | |- context [contains ?a ?b] => destruct (contains a b)
            | |- context [index ?a ?b] => destruct (index a b)
            | |- context [float ?a] => destruct (float a)
            | |- context [int ?a] => destruct (int a)
            end);
    reflexivity ].

Ltac before_step := apply updates_bind_l; [frame | frame | intros _].
Ltac at_step := apply updates_bind_r; [own_step | frame | frame].

(** Splits on the tests of a line until the state reached can be read. *)
Ltac settle_tests :=
  repeat (cbn beta iota delta [orb];
          match goal with
          | |- context [mem ?a ?b] => destruct (mem a b)
          | |- context [contains ?a ?b] => destruct (contains a b)
          | |- context [index ?a ?b] => destruct (index a b)
          | |- context [float ?a] => destruct (float a)
          | |- context [int ?a] => destruct (int a)
          end).

(** One line of the PID block, seen from one field. *)
Ltac pid_line_step :=
  split;
  [ frame
  | intros st; unfold pid_line, try_except, bind, eval, assign, modify, pass, ret;
    cbn [existsb]; settle_tests; reflexivity ].

(** ** The config parser, field by field *)


Section ParserFacts.

Local Arguments Ascii.eqb : simpl never.

Lemma display_requested_false (response : string) :
  display_requested response = false ->
  contains "Current Configuration" response || contains "Configuration:" response
  = false /\
  existsb (fun keyword => contains keyword response)
    ["Throttle Inverted:"; "Motor Pulley Teeth:"; "Wheel Pulley Teeth:";
     "Wheel Diameter:"; "Motor Poles:"; "BLE Connected:"] = false.
Proof. unfold display_requested. intros H. apply orb_false_iff in H. exact H. Qed.

Lemma parse_config_display_returns (response : string) :
  returns (parse_config_display response).
Proof. unfold parse_config_display. frame. Qed.

Lemma parse_config_display_keeps_pid (response : string) :
  keeps pid_kp (parse_config_display response) /\
  keeps pid_ki (parse_config_display response) /\
  keeps pid_kd (parse_config_display response) /\
  keeps pid_output_max (parse_config_display response).
Proof. unfold parse_config_display. repeat split; frame. Qed.

Lemma pid_lines (earlier : list string) (label response : string)
    (f : Configuration -> pyfloat) (m : py Configuration unit)
    (body : string -> py Configuration unit) :
  returns m -> keeps f m ->
  (forall line, updates f (pid_line earlier label line) (body line)) ->
  updates f (pid_block earlier label response)
    (if contains "=== Level Assistant PID Parameters ===" response
     then for_each (split nl response) body else m).
Proof.
  intros Hr Hk Hbody. unfold pid_block, pid_header.
  destruct (contains "=== Level Assistant PID Parameters ===" response).
  - apply (updates_for_each f (pid_line earlier label)), Hbody.
  - apply updates_quiet; assumption.
Qed.

(** The loop over the PID lines, seen from one field. *)
Ltac pid_block_step :=
  unfold when; cbv zeta;
  apply pid_lines; [frame | frame | intros line; pid_line_step].

(** A "set to:" rule, then the steps that leave the field alone, then the
    loop over the PID lines. *)
Tactic Notation "pid_field" integer(rule) integer(quiet) :=
  unfold parse_config_response; apply updates_try;
  do rule before_step;
  match goal with
  | |- updates ?f (fun old => ?block (?echo old)) _ =>
      apply (updates_bind f echo block); [own_step | intros _]
  end;
  do quiet before_step;
  apply updates_bind_r; [pid_block_step | frame | frame];
  try apply parse_config_display_returns; apply parse_config_display_keeps_pid.

Lemma parse_config_response_pid_kp (response : string) :
  updates pid_kp
    (fun old =>
       pid_block [] "Kp (Proportional):" response
         (echoed "PID Kp set to:" (fun text => float (strip text)) response old))
    (parse_config_response response).
Proof. pid_field 2 3. Qed.

Lemma parse_config_response_pid_ki (response : string) :
  updates pid_ki
    (fun old =>
       pid_block ["Kp (Proportional):"] "Ki (Integral):" response
         (echoed "PID Ki set to:" (fun text => float (strip text)) response old))
    (parse_config_response response).
Proof. pid_field 3 2. Qed.

Lemma parse_config_response_pid_kd (response : string) :
  updates pid_kd
    (fun old =>
       pid_block ["Kp (Proportional):"; "Ki (Integral):"] "Kd (Derivative):" response
         (echoed "PID Kd set to:" (fun text => float (strip text)) response old))
    (parse_config_response response).
Proof. pid_field 4 1. Qed.

Lemma parse_config_response_pid_output_max (response : string) :
  updates pid_output_max
    (fun old =>
       pid_block ["Kp (Proportional):"; "Ki (Integral):"; "Kd (Derivative):"]
         "Output Max:" response
         (echoed "PID Output Max set to:" (fun text => float (strip text))
            response old))
    (parse_config_response response).
Proof. pid_field 5 0. Qed.

(** With no display block asked for, the last step of the parser is [pass]. *)
Ltac no_display H :=
  unfold parse_config_response;
  destruct (display_requested_false _ H) as [?H1 ?H2];
  rewrite H1, H2; cbv iota; apply updates_try.

Lemma parse_config_response_invert_throttle (response : string) :
  display_requested response = false ->
  updates invert_throttle
    (switched "Throttle inversion: ENABLED" "Throttle inversion: DISABLED" response)
    (parse_config_response response).
Proof. intros H. no_display H. at_step. Qed.

Lemma parse_config_response_level_assistant (response : string) :
  display_requested response = false ->
  updates level_assistant
    (switched "Level assistant: ENABLED" "Level assistant: DISABLED" response)
    (parse_config_response response).
Proof. intros H. no_display H. before_step. at_step. Qed.

End ParserFacts.

(** ** The display parser, line by line *)

Section DisplayFacts.

Local Arguments Ascii.eqb : simpl never.

Lemma split1_colon_cons (c : ascii) (s : string) :
  split1 ":" (String c s) =
  if (":" =? c)%char then [""; s] else push c (split1 ":" s).
Proof.
  change (split1 ":" (String c s))
    with (if (":" =? c)%char && true then [""; s] else push c (split1 ":" s)).
  rewrite andb_true_r. reflexivity.
Qed.

Lemma split1_colon (key value : string) :
  occurs ":" key = false ->
  split1 ":" (key ++ ":" ++ value) = [key; value].
Proof.
  induction key as [|c key IH]; intros H.
  - reflexivity.
  - simpl in H. apply orb_false_iff in H as [Hc Hk].
    change (String c key ++ ":" ++ value)%string
      with (String c (key ++ ":" ++ value)).
    rewrite split1_colon_cons, Hc, (IH Hk). reflexivity.
Qed.

Lemma contains_colon (key value : string) :
  contains ":" (key ++ ":" ++ value) = true.
Proof.
  rewrite contains_char, occurs_app.
  apply orb_true_iff. right. reflexivity.
Qed.

Lemma mem_false (x : string) (xs : list string) :
  ~ In x xs -> mem x xs = false.
Proof.
  intros H. unfold mem. destruct (existsb (String.eqb x) xs) eqn:E; [|reflexivity].
  apply existsb_exists in E as [y [Hin Hy]]. apply String.eqb_eq in Hy.
  subst y. contradiction.
Qed.

Lemma mem_true (x : string) (xs : list string) : mem x xs = true -> In x xs.
Proof.
  unfold mem. intros E.
  apply existsb_exists in E as [y [Hin Hy]]. apply String.eqb_eq in Hy.
  subst y. exact Hin.
Qed.

(** The lines of a block are handled one after the other. *)
Lemma parse_config_display_app (a b : string) (cfg : Configuration) :
  parse_config_display (a ++ nl ++ b) cfg =
  parse_config_display b (snd (parse_config_display a cfg)).
Proof.
  unfold parse_config_display. cbv zeta.
  rewrite split_nl_app. apply for_each_app. frame.
Qed.

End DisplayFacts.

(** ** The integer fields: the echo, then the display lines *)

Section BlockFacts.

Local Arguments Ascii.eqb : simpl never.

(** One display line, seen from one integer field: either the trimmed key is
    one of the spellings of the field, and the tests made before are settled
    by the spelling, or it is not, and no branch writes the field. *)
Ltac display_line_step :=
  split;
  [ frame
  | intros st; unfold display_line, first_word, when;
    destruct (contains ":" _); [|reflexivity];
    destruct (split1 ":" _) as [|key [|value [|extra rest]]]; try reflexivity;
    match goal with
    | |- _ = (if mem ?k ?spellings then _ else _) =>
        let E := fresh "E" in
        destruct (mem k spellings) eqn:E;
        [ apply mem_true in E; cbn [In] in E;
          destruct E as [E|[E|[]]]; rewrite <- E;
          repeat match goal with
                 | |- context [mem (String ?c ?r) ?l] =>
                     let b := eval vm_compute in (mem (String c r) l) in
                     change (mem (String c r) l) with b
                 end
        | ]
    end;
    unfold try_except, bind, eval, assign, modify, pass, ret;
    settle_tests; reflexivity ].

Lemma display_step {V : Type} (f : Configuration -> V) (g : V -> V)
    (response : string) :
  updates f g (parse_config_display response) ->
  updates f (fun v => if display_requested response then g v else v)
    (if contains "Current Configuration" response
        || contains "Configuration:" response
     then parse_config_display response
     else if existsb (fun keyword => contains keyword response)
               ["Throttle Inverted:"; "Motor Pulley Teeth:";
                "Wheel Pulley Teeth:"; "Wheel Diameter:"; "Motor Poles:";
                "BLE Connected:"]
     then parse_config_display response
     else pass).
Proof.
  intros H. unfold display_requested.
  destruct (contains "Current Configuration" response
            || contains "Configuration:" response); cbn [orb]; [exact H|].
  match goal with |- context [existsb ?p ?l] => destruct (existsb p l) end;
    [exact H | apply updates_quiet; frame].
Qed.

(** A "set to:" rule, then the steps that leave the field alone, then the
    display lines. *)
Tactic Notation "integer_field" integer(rule) integer(quiet) :=
  unfold parse_config_response; apply updates_try;
  do rule before_step;
  try unfold before_unit;
  match goal with
  | |- updates ?f (fun old => ?block (?echo old)) _ =>
      apply (updates_bind f echo block); [own_step | intros _]
  end;
  do quiet before_step;
  unfold display_block;
  match goal with
  | |- updates ?f (fun v => if _ then fold_left ?step ?lines v else v) _ =>
      apply (display_step f (fun v => fold_left step lines v))
  end;
  unfold parse_config_display; cbv zeta;
  match goal with
  | |- updates ?f (fun v => fold_left (fun w line => ?g line w) _ v) _ =>
      apply (updates_for_each f g)
  end;
  intros line; display_line_step.

Lemma parse_config_response_motor_pulley (response : string) :
  updates motor_pulley
    (fun old =>
       display_block ["Motor Pulley Teeth"; "Motor pulley teeth"] int response
         (echoed "Motor pulley teeth set to:" (fun text => int (strip text))
            response old))
    (parse_config_response response).
Proof. integer_field 7 3. Qed.

Lemma parse_config_response_wheel_pulley (response : string) :
  updates wheel_pulley
    (fun old =>
       display_block ["Wheel Pulley Teeth"; "Wheel pulley teeth"] int response
         (echoed "Wheel pulley teeth set to:" (fun text => int (strip text))
            response old))
    (parse_config_response response).
Proof. integer_field 8 2. Qed.

Lemma parse_config_response_wheel_diameter (response : string) :
  updates wheel_diameter_mm
    (fun old =>
       display_block ["Wheel Diameter"; "Wheel diameter"] first_word response
         (echoed "Wheel diameter set to:" before_unit response old))
    (parse_config_response response).
Proof. integer_field 9 1. Qed.

Lemma parse_config_response_motor_poles (response : string) :
  updates motor_poles
    (fun old =>
       display_block ["Motor Poles"; "Motor poles"] int response
         (echoed "Motor poles set to:" (fun text => int (strip text))
            response old))
    (parse_config_response response).
Proof. integer_field 10 0. Qed.

End BlockFacts.

(** Brings [parse_config_display] on the single line [key ++ ":" ++ value]
    down to the chain of tests on the trimmed key. *)
Ltac one_line Hcolon Hnl :=
  unfold parse_config_display; cbv zeta;
  rewrite (split_no_nl _ Hnl); cbn [for_each];
  rewrite contains_colon; unfold when;
  rewrite (split1_colon _ _ Hcolon).

Section IsolationFacts.

Local Arguments Ascii.eqb : simpl never.

(** [one_line] for a label given in full. *)
Ltac concrete_label Hnl :=
  match goal with
  | |- parse_config_display (?label ++ ":" ++ ?payload) _ = _ =>
      let Hc := fresh "Hc" in
      let Hn := fresh "Hn" in
      assert (Hc : occurs ":" label = false) by reflexivity;
      assert (Hn : occurs nlc (label ++ ":" ++ payload) = false)
        by (rewrite occurs_app; simpl; exact Hnl);
      one_line Hc Hn
  end.

Lemma bad_numeric_entry_noop (label payload : string) (cfg : Configuration) :
  contains nl payload = false ->
  bad_numeric_entry label payload ->
  parse_config_display (label ++ ":" ++ payload) cfg = (Return tt, cfg).
Proof.
  intros Hnl Hbad. rewrite contains_nl in Hnl.
  destruct Hbad as [[Hin [e He]] | [Hin [e He]]].
  - simpl in Hin.
    repeat (destruct Hin as [<-|Hin];
            [ concrete_label Hnl; rewrite He; reflexivity |]).
    destruct Hin.
  - simpl in Hin.
    repeat (destruct Hin as [<-|Hin];
            [ concrete_label Hnl; revert He;
              destruct (if contains " " (strip payload)
                        then index (split_ws (strip payload)) 0
                        else Return (strip payload)) as [d|e'];
              intros He; unfold bind, eval; cbn beta iota;
              [rewrite He|]; reflexivity |]).
    destruct Hin.
Qed.

End IsolationFacts.

(** C1, amended.  When the response asks for no display block, the parser
    returns with [invert_throttle] true if "Throttle inversion: ENABLED"
    occurs anywhere in the response, false if it does not and
    "Throttle inversion: DISABLED" occurs, and unchanged otherwise: with both
    lines in one chunk the result is true in either order. *)
Theorem throttle_inversion_enabled_first (response : string) (cfg : Configuration) :
  display_requested response = false ->
  fst (parse_config_response response cfg) = Return tt /\
  invert_throttle (snd (parse_config_response response cfg)) =
    if contains "Throttle inversion: ENABLED" response then true
    else if contains "Throttle inversion: DISABLED" response then false
    else invert_throttle cfg.
Proof.
  intros H.
  destruct (parse_config_response_invert_throttle response H) as [Hr Hu].
  split; [|apply Hu].
  rewrite (returns_unit _ cfg Hr). reflexivity.
Qed.

Lemma throttle_inversion_enabled_first_witness :
  invert_throttle
    (snd (parse_config_response
            ("Throttle inversion: DISABLED" ++ nl ++ "Throttle inversion: ENABLED")
            initial_config)) = true.
Proof.
  exact (proj2 (throttle_inversion_enabled_first
                  ("Throttle inversion: DISABLED" ++ nl ++ "Throttle inversion: ENABLED")
                  initial_config eq_refl)).
Defined.

(** C1, as stated, fails: with ENABLED on the first line and DISABLED on the
    last one of a cleaned chunk, [invert_throttle] ends true, not false. *)
Lemma throttle_inversion_last_line_loses :
  let chunk :=
    ("Throttle inversion: ENABLED" ++ nl ++ "Throttle inversion: DISABLED")%string in
  clean_response chunk = Some chunk /\
  invert_throttle (snd (parse_config_response chunk initial_config)) = true /\
  invert_throttle (snd (process_response chunk initial_config)) <> false.
Proof. repeat split; try reflexivity. discriminate. Qed.

(** C7.  On every text and from every configuration, [parse_config_response]
    returns normally, with no value, and hands back a configuration. *)
Theorem parse_config_response_never_raises (response : string) (cfg : Configuration) :
  exists cfg', parse_config_response response cfg = (Return tt, cfg').
Proof.
  unfold parse_config_response, try_except.
  match goal with |- context [?body cfg] =>
    match type of (body cfg) with
    | (outcome unit * Configuration)%type =>
        destruct (body cfg) as [[[]|e] cfg']
    end
  end.
  - exists cfg'. reflexivity.
  - exists cfg'. reflexivity.
Qed.

(** C6, amended.  A numeric payload that does not parse is caught where it
    is read and aborts nothing.  Whatever the response, the parser returns
    normally and each numeric field ends with what its own rules make of its
    prior value, one after the other: first its "set to:" rule, which reads
    all the text after its marker and leaves the prior value when that text
    does not convert; then, for a PID field, the lines of the PID block and,
    for an integer field, the lines of the display block, where a line that
    does not convert leaves the value reached so far and the lines after it
    are still applied.  A display line whose integer does not parse changes
    nothing and can be deleted from the block without changing the
    result. *)
Theorem parse_failure_is_isolated :
  (forall (response : string) (cfg : Configuration),
     let cfg' := snd (parse_config_response response cfg) in
     fst (parse_config_response response cfg) = Return tt /\
     pid_kp cfg' =
       pid_block [] "Kp (Proportional):" response
         (echoed "PID Kp set to:" (fun text => float (strip text)) response
            (pid_kp cfg)) /\
     pid_ki cfg' =
       pid_block ["Kp (Proportional):"] "Ki (Integral):" response
         (echoed "PID Ki set to:" (fun text => float (strip text)) response
            (pid_ki cfg)) /\
     pid_kd cfg' =
       pid_block ["Kp (Proportional):"; "Ki (Integral):"] "Kd (Derivative):"
         response
         (echoed "PID Kd set to:" (fun text => float (strip text)) response
            (pid_kd cfg)) /\
     pid_output_max cfg' =
       pid_block ["Kp (Proportional):"; "Ki (Integral):"; "Kd (Derivative):"]
         "Output Max:" response
         (echoed "PID Output Max set to:" (fun text => float (strip text))
            response (pid_output_max cfg)) /\
     motor_pulley cfg' =
       display_block ["Motor Pulley Teeth"; "Motor pulley teeth"] int response
         (echoed "Motor pulley teeth set to:" (fun text => int (strip text))
            response (motor_pulley cfg)) /\
     wheel_pulley cfg' =
       display_block ["Wheel Pulley Teeth"; "Wheel pulley teeth"] int response
         (echoed "Wheel pulley teeth set to:" (fun text => int (strip text))
            response (wheel_pulley cfg)) /\
     wheel_diameter_mm cfg' =
       display_block ["Wheel Diameter"; "Wheel diameter"] first_word response
         (echoed "Wheel diameter set to:" before_unit response
            (wheel_diameter_mm cfg)) /\
     motor_poles cfg' =
       display_block ["Motor Poles"; "Motor poles"] int response
         (echoed "Motor poles set to:" (fun text => int (strip text)) response
            (motor_poles cfg)))
  /\
  (forall (label payload pre post : string) (cfg : Configuration),
     contains nl payload = false ->
     bad_numeric_entry label payload ->
     let bad := (label ++ ":" ++ payload)%string in
     parse_config_display bad cfg = (Return tt, cfg) /\
     parse_config_display (bad ++ nl ++ post) cfg = parse_config_display post cfg /\
     parse_config_display (pre ++ nl ++ bad) cfg = parse_config_display pre cfg /\
     parse_config_display (pre ++ nl ++ bad ++ nl ++ post) cfg
     = parse_config_display (pre ++ nl ++ post) cfg).
Proof.
  split.
  - intros response cfg cfg'. subst cfg'.
    split.
    { destruct (parse_config_response_pid_kp response) as [Hr _].
      rewrite (returns_unit _ cfg Hr). reflexivity. }
    split; [apply (parse_config_response_pid_kp response)|].
    split; [apply (parse_config_response_pid_ki response)|].
    split; [apply (parse_config_response_pid_kd response)|].
    split; [apply (parse_config_response_pid_output_max response)|].
    split; [apply (parse_config_response_motor_pulley response)|].
    split; [apply (parse_config_response_wheel_pulley response)|].
    split; [apply (parse_config_response_wheel_diameter response)|].
    apply (parse_config_response_motor_poles response).
  - intros label payload pre post cfg Hnl Hbad bad.
    assert (Hnoop : forall c, parse_config_display bad c = (Return tt, c))
      by (intros c; apply bad_numeric_entry_noop; assumption).
    split; [|split; [|split]].
    + apply Hnoop.
    + rewrite parse_config_display_app, Hnoop. reflexivity.
    + rewrite parse_config_display_app, Hnoop.
      rewrite (returns_unit _ cfg (parse_config_display_returns pre)) at 2.
      reflexivity.
    + rewrite !parse_config_display_app, Hnoop. reflexivity.
Qed.

Lemma parse_failure_is_isolated_witness :
  (let cfg' :=
     snd (parse_config_response
            ("PID Kp set to: abc" ++ nl ++ "PID Ki set to: 0.25") initial_config) in
   pid_kp cfg' = pid_kp initial_config /\ pid_ki cfg' = Finite (Qmake 1 4))
  /\
  (let cfg' :=
     snd (parse_config_response
            ("=== Level Assistant PID Parameters ===" ++ nl ++
             "Kp (Proportional): abc" ++ nl ++
             "Ki (Integral): 0.25" ++ nl ++
             "Kd (Derivative): 0.125") initial_config) in
   pid_kp cfg' = pid_kp initial_config /\
   pid_ki cfg' = Finite (Qmake 1 4) /\
   pid_kd cfg' = Finite (Qmake 1 8))
  /\
  (let cfg' :=
     snd (parse_config_response
            ("Current Configuration" ++ nl ++
             "Motor Pulley Teeth: abc" ++ nl ++
             "Motor Poles: 12") initial_config) in
   motor_pulley cfg' = motor_pulley initial_config /\ motor_poles cfg' = 12%Z)
  /\
  parse_config_display
    ("Motor Pulley Teeth: abc" ++ nl ++ "Wheel Pulley Teeth: 34") initial_config
  = (Return tt, set_wheel_pulley_teeth 34 initial_config).
Proof.
  split; [|split; [|split]].
  - destruct (proj1 parse_failure_is_isolated
                ("PID Kp set to: abc" ++ nl ++ "PID Ki set to: 0.25")%string
                initial_config) as (_ & Hkp & Hki & _).
    split; [exact Hkp | exact Hki].
  - destruct (proj1 parse_failure_is_isolated
                ("=== Level Assistant PID Parameters ===" ++ nl ++
                 "Kp (Proportional): abc" ++ nl ++
                 "Ki (Integral): 0.25" ++ nl ++
                 "Kd (Derivative): 0.125")%string
                initial_config) as (_ & Hkp & Hki & Hkd & _).
    split; [exact Hkp | split; [exact Hki | exact Hkd]].
  - destruct (proj1 parse_failure_is_isolated
                ("Current Configuration" ++ nl ++
                 "Motor Pulley Teeth: abc" ++ nl ++
                 "Motor Poles: 12")%string
                initial_config) as (_ & _ & _ & _ & _ & Hmp & _ & _ & Hpoles).
    split; [exact Hmp | exact Hpoles].
  - destruct (proj2 parse_failure_is_isolated
                "Motor Pulley Teeth" " abc" "" "Wheel Pulley Teeth: 34"
                initial_config eq_refl
                (or_introl (conj (or_introl eq_refl)
                                 (ex_intro _ ValueError eq_refl))))
      as (_ & H & _).
    exact H.
Defined.

(** C6, as stated, fails: the echo "PID Ki set to: 0.25" alone sets [pid_ki]
    to 0.25, but followed in the same cleaned chunk by the line
    "PID Kp set to: abc" it is not applied and [pid_ki] keeps its prior
    value 0.5: the Ki rule reads the text up to the end of the chunk, so the
    other line does prevent this field from being set. *)
Lemma set_to_echo_is_blocked_by_next_line :
  let echo := "PID Ki set to: 0.25" in
  let chunk := (echo ++ nl ++ "PID Kp set to: abc")%string in
  clean_response chunk = Some chunk /\
  pid_ki (snd (process_response echo initial_config)) = Finite (Qmake 1 4) /\
  pid_ki (snd (parse_config_response chunk initial_config)) = Finite (Qmake 1 2) /\
  pid_ki (snd (process_response chunk initial_config)) = pid_ki initial_config /\
  pid_ki (snd (process_response chunk initial_config)) <> Finite (Qmake 1 4).
Proof.
  cbv zeta.
  split; [reflexivity|]. split; [reflexivity|]. split; [reflexivity|].
  split; [reflexivity|].
  intros H. vm_compute in H. discriminate H.
Qed.

(** C9, amended.  A display line [key: value] is dispatched on its trimmed
    key by exact comparison with the listed spellings, two for each field:
    with a listed spelling the field is written (the switches from the
    lower-cased value, the integers when the value converts), and with any
    other key, such as a listed one in another letter case, the
    configuration stays as it was. *)
Theorem display_keys_are_exact (key value : string) (cfg : Configuration) :
  contains ":" key = false ->
  contains nl (key ++ ":" ++ value) = false ->
  let result := parse_config_display (key ++ ":" ++ value) cfg in
  (mem (strip key) ["Throttle Inverted"; "Throttle inversion"] = true ->
   result = (Return tt,
             set_invert_throttle
               (mem (lower (strip value)) ["yes"; "enabled"; "true"]) cfg)) /\
  (mem (strip key) ["Level Assistant"; "Level assistant"] = true ->
   result = (Return tt,
             set_level_assistant
               (mem (lower (strip value)) ["yes"; "enabled"; "true"]) cfg)) /\
  (forall v, mem (strip key) ["Motor Pulley Teeth"; "Motor pulley teeth"] = true ->
             int (strip value) = Return v ->
             result = (Return tt, set_motor_pulley_teeth v cfg)) /\
  (forall v, mem (strip key) ["Wheel Pulley Teeth"; "Wheel pulley teeth"] = true ->
             int (strip value) = Return v ->
             result = (Return tt, set_wheel_pulley_teeth v cfg)) /\
  (forall diameter v,
     mem (strip key) ["Wheel Diameter"; "Wheel diameter"] = true ->
     (if contains " " (strip value) then index (split_ws (strip value)) 0
      else Return (strip value)) = Return diameter ->
     int diameter = Return v ->
     result = (Return tt, set_wheel_diameter_mm v cfg)) /\
  (forall v, mem (strip key) ["Motor Poles"; "Motor poles"] = true ->
             int (strip value) = Return v ->
             result = (Return tt, set_motor_poles_count v cfg)) /\
  (mem (strip key) ["BLE Connected"; "BLE connected"] = true ->
   result = (Return tt,
             set_ble_connected
               (mem (lower (strip value)) ["yes"; "connected"; "true"]) cfg)) /\
  (~ In (strip key)
        ["Throttle Inverted"; "Throttle inversion";
         "Level Assistant"; "Level assistant";
         "Motor Pulley Teeth"; "Motor pulley teeth";
         "Wheel Pulley Teeth"; "Wheel pulley teeth";
         "Wheel Diameter"; "Wheel diameter";
         "Motor Poles"; "Motor poles";
         "BLE Connected"; "BLE connected"] ->
   result = (Return tt, cfg)).
Proof.
  intros Hc Hn result. subst result.
  rewrite contains_char in Hc. rewrite contains_nl in Hn.
  one_line Hc Hn.
  generalize (strip key) as k. generalize (strip value) as val. intros val k.
  repeat split.
  - intros Hk. apply mem_true in Hk. destruct Hk as [<-|[<-|[]]]; reflexivity.
  - intros Hk. apply mem_true in Hk. destruct Hk as [<-|[<-|[]]]; reflexivity.
  - intros v Hk Hv. apply mem_true in Hk. rewrite Hv.
    destruct Hk as [<-|[<-|[]]]; reflexivity.
  - intros v Hk Hv. apply mem_true in Hk. rewrite Hv.
    destruct Hk as [<-|[<-|[]]]; reflexivity.
  - intros diameter v Hk Hd Hv. apply mem_true in Hk. rewrite Hd.
    unfold bind, eval. cbn beta iota. rewrite Hv.
    destruct Hk as [<-|[<-|[]]]; reflexivity.
  - intros v Hk Hv. apply mem_true in Hk. rewrite Hv.
    destruct Hk as [<-|[<-|[]]]; reflexivity.
  - intros Hk. apply mem_true in Hk. destruct Hk as [<-|[<-|[]]]; reflexivity.
  - intros Hk.
    rewrite !(mem_false k) by (intros Hin; apply Hk; simpl in *; tauto).
    reflexivity.
Qed.

Lemma display_keys_are_exact_witness :
  parse_config_display "Throttle Inverted: yes" initial_config
  = (Return tt, set_invert_throttle true initial_config) /\
  parse_config_display "THROTTLE INVERTED: yes" initial_config
  = (Return tt, initial_config).
Proof.
  split.
  - destruct (display_keys_are_exact "Throttle Inverted" " yes" initial_config
                eq_refl eq_refl) as (H & _).
    exact (H eq_refl).
  - destruct (display_keys_are_exact "THROTTLE INVERTED" " yes" initial_config
                eq_refl eq_refl) as (_ & _ & _ & _ & _ & _ & _ & H).
    apply H. simpl. intros Hin.
    repeat (destruct Hin as [Hin|Hin]; [discriminate Hin|]).
    exact Hin.
Defined.

(** C9, as stated, fails: the listed key in capitals or in small letters is
    not recognised. *)
Lemma display_key_case_matters :
  invert_throttle
    (snd (parse_config_display "Throttle Inverted: yes" initial_config)) = true /\
  invert_throttle
    (snd (parse_config_display "THROTTLE INVERTED: yes" initial_config)) = false /\
  invert_throttle
    (snd (parse_config_display "throttle inverted: yes" initial_config)) = false.
Proof. repeat split; reflexivity. Qed.

(** ** The command dispatcher *)

(** Opens a handler applied to a state given by its fields. *)
Ltac run_handler :=
  unfold handler, toggle_throttle, toggle_level_assistant, reset_odometer,
    set_motor_pulley, set_wheel_pulley, set_wheel_size, set_motor_poles,
    get_config, show_help, calibrate_throttle, get_calibration,
    set_pid_kp, set_pid_ki, set_pid_kd, set_pid_output_max, get_pid_params,
    send_serial_command, write, set_config, get_state,
    when, try_except, bind, eval, modify, pass, ret;
  cbn beta iota delta [config is_connected sent negb fst snd].

(** C8.  [set_motor_pulley], [set_wheel_pulley], [set_wheel_size] and
    [set_motor_poles] turn away a value that is at most 0 or above 255, such
    as 0 and 256: nothing is written to the serial port and the state,
    configuration included, is as before.  With a connection, every value
    from 1 to 255, such as 1 and 255, passes and the command is written. *)
Theorem pulley_validation (self : App) (value : Z) :
  ((value <= 0 \/ 255 < value)%Z ->
   set_motor_pulley (Return value) self = (Return tt, self) /\
   set_wheel_pulley (Return value) self = (Return tt, self) /\
   set_wheel_size (Return value) self = (Return tt, self) /\
   set_motor_poles (Return value) self = (Return tt, self))
  /\
  ((1 <= value <= 255)%Z -> is_connected self = true ->
   let written (name : string) :=
     (Return tt,
      mkApp (config self) true
        (sent self ++ [Plain (name ++ str_of_int value)])) in
   set_motor_pulley (Return value) self = written "set_motor_pulley " /\
   set_wheel_pulley (Return value) self = written "set_wheel_pulley " /\
   set_wheel_size (Return value) self = written "set_wheel_size " /\
   set_motor_poles (Return value) self = written "set_motor_poles ").
Proof.
  destruct self as [cfg connected out]. split.
  - intros Hbad.
    assert (E : ((value <=? 0)%Z || (value >? 255)%Z) = true).
    { apply orb_true_iff. destruct Hbad; [left|right]; lia. }
    run_handler. rewrite E.
    destruct connected; repeat split; reflexivity.
  - intros Hok Hconn. simpl in Hconn. subst connected.
    assert (E : ((value <=? 0)%Z || (value >? 255)%Z) = false).
    { apply orb_false_iff. split; lia. }
    run_handler. rewrite E. repeat split; reflexivity.
Qed.

Lemma pulley_validation_witness :
  set_motor_pulley (Return 0%Z) (mkApp initial_config true []) =
    (Return tt, mkApp initial_config true []) /\
  set_motor_pulley (Return 256%Z) (mkApp initial_config true []) =
    (Return tt, mkApp initial_config true []) /\
  set_motor_pulley (Return 1%Z) (mkApp initial_config true []) =
    (Return tt, mkApp initial_config true [Plain "set_motor_pulley 1"]) /\
  set_motor_pulley (Return 255%Z) (mkApp initial_config true []) =
    (Return tt, mkApp initial_config true [Plain "set_motor_pulley 255"]).
Proof.
  split; [|split; [|split]].
  - apply (proj1 (pulley_validation (mkApp initial_config true []) 0)). lia.
  - apply (proj1 (pulley_validation (mkApp initial_config true []) 256)). lia.
  - apply (proj2 (pulley_validation (mkApp initial_config true []) 1));
      [lia | reflexivity].
  - apply (proj2 (pulley_validation (mkApp initial_config true []) 255));
      [lia | reflexivity].
Defined.

(** C3, amended.  Every handler other than the four PID setters leaves the
    configuration as it was, whether it writes a command or turns the
    request away.  [set_pid_kp], [set_pid_ki], [set_pid_kd] and
    [set_pid_output_max] leave it as it was when they turn the request away,
    and otherwise store the entered value in their own field before the
    command is written. *)
Theorem dispatch_effect_on_config (a : action) (self : App) :
  config (snd (handler a self)) =
  match a with
  | SetPidKp entry => stored set_kp (float_lit 0 1) (float_lit 10 1) entry self
  | SetPidKi entry => stored set_ki (float_lit 0 1) (float_lit 2 1) entry self
  | SetPidKd entry => stored set_kd (float_lit 0 1) (float_lit 1 1) entry self
  | SetPidOutputMax entry =>
      stored set_output_max (float_lit 10 1) (float_lit 100 1) entry self
  | _ => config self
  end.
Proof.
  destruct self as [cfg connected out].
  destruct a as [b|b| |v|v|v|v| | |r| |v|v|v|v| ]; unfold stored; run_handler;
    destruct connected; try reflexivity;
    try (destruct r; reflexivity);
    destruct v as [x|e]; try reflexivity;
    cbn beta iota;
    try (destruct ((x <=? 0)%Z || (x >? 255)%Z); reflexivity);
    try (destruct e; reflexivity);
    match goal with
    | |- context [flt x ?lo || flt ?hi x] => destruct (flt x lo || flt hi x)
    end; reflexivity.
Qed.

(** C3, as stated, fails: with a connection, [set_pid_kp] on the entry 1.5
    changes [pid_kp] from 0.8 to 1.5 while writing the command. *)
Lemma set_pid_kp_writes_config :
  let self := mkApp initial_config true [] in
  let self' := snd (handler (SetPidKp (Return (float_lit 3 2))) self) in
  pid_kp (config self) = float_lit 4 5 /\
  pid_kp (config self') = float_lit 3 2 /\
  sent self' = [WithFloat "set_pid_kp " (float_lit 3 2)] /\
  config self' <> config self.
Proof. repeat split; try reflexivity. discriminate. Qed.

(** ** Decimal numerals: [int(str(n))] *)

Section NumeralFacts.

Lemma scan_digits_uint (d : Decimal.uint) (acc : Z) (n : nat) :
  scan_digits acc n (NilEmpty.string_of_uint d)
  = (uint_value acc d, (n + Decimal.nb_digits d)%nat, "").
Proof.
  revert acc n.
  induction d; intros acc n;
    cbn [NilEmpty.string_of_uint Decimal.nb_digits uint_value];
    [ rewrite Nat.add_0_r; reflexivity | .. ];
    (cbn [scan_digits];
     match goal with |- context [isdigit ?c] => change (isdigit c) with true end;
     cbv iota; rewrite IHd;
     replace (S n + Decimal.nb_digits d)%nat with (n + S (Decimal.nb_digits d))%nat by lia;
     reflexivity).
Qed.

Lemma uint_value_pos (d : Decimal.uint) (acc : positive) :
  uint_value (Z.pos acc) d = Z.pos (Pos.of_uint_acc d acc).
Proof.
  revert acc.
  induction d; intros acc; cbn [uint_value Pos.of_uint_acc]; [reflexivity | ..];
    rewrite <- IHd; f_equal; lia.
Qed.

Lemma uint_value_0 (d : Decimal.uint) : uint_value 0 d = Z.of_uint d.
Proof.
  unfold Z.of_uint.
  induction d; cbn [uint_value Pos.of_uint]; [reflexivity | exact IHd | ..];
    apply (uint_value_pos d).
Qed.

Lemma all_chars_uint (d : Decimal.uint) :
  all_chars isdigit (NilEmpty.string_of_uint d) = true.
Proof. induction d; [reflexivity | ..]; exact IHd. Qed.

Lemma all_chars_impl (p q : ascii -> bool) (s : string) :
  (forall c, p c = true -> q c = true) ->
  all_chars p s = true -> all_chars q s = true.
Proof.
  intros Hpq. induction s as [|c s IH]; [trivial|].
  cbn [all_chars]. intros H. apply andb_true_iff in H as [Hc Hs].
  rewrite (Hpq c Hc), (IH Hs). reflexivity.
Qed.

Lemma strip_no_space (s : string) :
  all_chars (fun c => negb (isspace c)) s = true -> strip s = s.
Proof.
  intros H. unfold strip.
  assert (L : lstrip s = s).
  { destruct s as [|c s]; [reflexivity|]. cbn [all_chars lstrip] in *.
    destruct (isspace c); [discriminate | reflexivity]. }
  rewrite L. clear L.
  induction s as [|c s IH]; [reflexivity|].
  cbn [all_chars] in H. apply andb_true_iff in H as [Hc Hs].
  cbn [rstrip]. rewrite (IH Hs).
  destruct s; [|reflexivity].
  destruct (isspace c); [discriminate | reflexivity].
Qed.

Lemma numeral_not_space (c : ascii) :
  numeral_char c = true -> negb (isspace c) = true.
Proof.
  destruct c as [[] [] [] [] [] [] [] []]; try discriminate; reflexivity.
Qed.

Lemma digit_numeral (c : ascii) : isdigit c = true -> numeral_char c = true.
Proof. unfold numeral_char. intros ->. reflexivity. Qed.

Lemma str_of_int_chars (n : Z) : all_chars numeral_char (str_of_int n) = true.
Proof.
  unfold str_of_int.
  assert (U : forall d, all_chars numeral_char (NilZero.string_of_uint d) = true).
  { intros d. unfold NilZero.string_of_uint.
    destruct d; try reflexivity;
      apply (all_chars_impl isdigit); try apply digit_numeral;
      apply (all_chars_uint (_ d)). }
  destruct (Z.to_int n) as [d|d]; cbn [NilZero.string_of_int]; [apply U|].
  cbn [all_chars]. rewrite U. reflexivity.
Qed.

Lemma numeral_space_isspace (c : ascii) :
  numeral_space c = true -> isspace c = true.
Proof.
  destruct c as [[] [] [] [] [] [] [] []]; try discriminate; reflexivity.
Qed.

Lemma numeral_strip_no_space (s : string) :
  all_chars (fun c => negb (isspace c)) s = true -> numeral_strip s = s.
Proof.
  intros H. unfold numeral_strip.
  assert (N : forall c, negb (isspace c) = true -> numeral_space c = false).
  { intros c Hc. destruct (numeral_space c) eqn:E; [|reflexivity].
    rewrite (numeral_space_isspace c E) in Hc. discriminate. }
  assert (L : numeral_lstrip s = s).
  { destruct s as [|c s]; [reflexivity|]. cbn [all_chars numeral_lstrip] in *.
    apply andb_true_iff in H as [Hc _]. rewrite (N c Hc). reflexivity. }
  rewrite L. clear L.
  induction s as [|c s IH]; [reflexivity|].
  cbn [all_chars] in H. apply andb_true_iff in H as [Hc Hs].
  cbn [numeral_rstrip]. rewrite (IH Hs).
  destruct s; [|reflexivity].
  rewrite (N c Hc). reflexivity.
Qed.

Lemma int_unsigned (d : Decimal.uint) :
  d <> Decimal.Nil -> (Decimal.nb_digits d <= max_str_digits)%nat ->
  int (NilEmpty.string_of_uint d) = Return (Z.of_uint d) /\
  int (String "-" (NilEmpty.string_of_uint d)) = Return (- Z.of_uint d)%Z.
Proof.
  intros Hnil Hlen. unfold int.
  assert (S1 : numeral_strip (NilEmpty.string_of_uint d) = NilEmpty.string_of_uint d).
  { apply numeral_strip_no_space, (all_chars_impl numeral_char); [apply numeral_not_space|].
    apply (all_chars_impl isdigit); [apply digit_numeral | apply all_chars_uint]. }
  assert (S2 : numeral_strip (String "-" (NilEmpty.string_of_uint d))
               = String "-" (NilEmpty.string_of_uint d)).
  { apply numeral_strip_no_space, (all_chars_impl numeral_char); [apply numeral_not_space|].
    cbn [all_chars]. apply (all_chars_impl isdigit); [apply digit_numeral | apply all_chars_uint]. }
  rewrite S1, S2. cbn [unsign].
  rewrite <- uint_value_0.
  pose proof (scan_digits_uint d 0 0) as Hscan. cbn [Nat.add] in Hscan.
  apply Nat.ltb_ge in Hlen.
  assert (Hpos : exists k, Decimal.nb_digits d = S k).
  { destruct (Decimal.nb_digits d) as [|k] eqn:E; [|exists k; reflexivity].
    apply DecimalFacts.nb_digits_0 in E. congruence. }
  destruct Hpos as [k Hk]. rewrite Hk in Hscan, Hlen.
  destruct d; [congruence | ..];
    (split;
     [ cbn [NilEmpty.string_of_uint unsign] in *; rewrite Hscan; cbv iota;
       rewrite Hlen; reflexivity
     | rewrite Hscan; cbv iota; rewrite Hlen; reflexivity ]).
Qed.

(** A numeral without leading zero is at least the power of ten of its
    length. *)
Lemma uint_value_lower (d : Decimal.uint) (acc : Z) :
  (0 <= acc)%Z ->
  (acc * 10 ^ Z.of_nat (Decimal.nb_digits d) <= uint_value acc d)%Z.
Proof.
  revert acc.
  induction d; intros acc Hacc; cbn [uint_value Decimal.nb_digits];
    [ cbn [Z.of_nat]; lia | .. ];
    (rewrite Nat2Z.inj_succ, Z.pow_succ_r by lia;
     match goal with
     | |- (_ <= uint_value ?x _)%Z =>
         assert (Hx : (0 <= x)%Z) by lia;
         specialize (IHd x Hx);
         assert (Hp : (0 < 10 ^ Z.of_nat (Decimal.nb_digits d))%Z)
           by (apply Z.pow_pos_nonneg; lia);
         nia
     end).
Qed.

Lemma to_uint_head (p : positive) (d : Decimal.uint) :
  Pos.to_uint p <> Decimal.D0 d.
Proof.
  intros H.
  pose proof (DecimalPos.Unsigned.to_of (Pos.to_uint p)) as E.
  rewrite DecimalPos.Unsigned.of_to in E. cbn [N.to_uint] in E.
  unfold Decimal.unorm in E.
  destruct (Decimal.nzhead (Pos.to_uint p)) eqn:Hn;
    try (rewrite H in E; rewrite <- E in Hn;
         exact (DecimalFacts.nzhead_nonzero _ _ Hn)).
  exact (DecimalPos.Unsigned.to_uint_nonzero p E).
Qed.

Lemma to_uint_value (p : positive) : uint_value 0 (Pos.to_uint p) = Z.pos p.
Proof.
  rewrite uint_value_0. unfold Z.of_uint.
  rewrite DecimalPos.Unsigned.of_to. reflexivity.
Qed.

(** [str(n)] has at most [max_str_digits] digits when [n] is below the
    power of ten of that length. *)
Lemma digits_bound (p : positive) :
  (Z.pos p < 10 ^ Z.of_nat max_str_digits)%Z ->
  (Decimal.nb_digits (Pos.to_uint p) <= max_str_digits)%nat.
Proof.
  intros Hlt.
  pose proof (to_uint_value p) as Hval.
  pose proof (to_uint_head p) as Hhead.
  pose proof (DecimalPos.Unsigned.to_uint_nonnil p) as Hnil.
  generalize dependent max_str_digits. intros limit Hlt.
  destruct (Pos.to_uint p) as [|d|d|d|d|d|d|d|d|d|d];
    [ congruence | exfalso; exact (Hhead d eq_refl) | .. ];
    (cbn [uint_value Decimal.nb_digits] in *;
     match type of Hval with
     | uint_value ?x _ = _ =>
         pose proof (uint_value_lower d x ltac:(lia)) as Hlow
     end;
     destruct (Nat.le_gt_cases (S (Decimal.nb_digits d)) limit) as [Hle|Hgt];
     [ exact Hle | exfalso ];
     assert (Hpow : (10 ^ Z.of_nat limit <= 10 ^ Z.of_nat (Decimal.nb_digits d))%Z)
       by (apply Z.pow_le_mono_r; lia);
     lia).
Qed.

(** [int(str(n)) == n], up to the length [int] accepts. *)
Lemma int_str_of_int (n : Z) :
  (Z.abs n < 10 ^ Z.of_nat max_str_digits)%Z -> int (str_of_int n) = Return n.
Proof.
  intros Hlt. unfold str_of_int.
  destruct n as [|p|p]; [reflexivity | |];
    cbn [Z.to_int NilZero.string_of_int]; unfold NilZero.string_of_uint;
    pose proof (DecimalPos.Unsigned.to_uint_nonnil p) as Hnil;
    pose proof (DecimalPos.Unsigned.of_to p) as Hval;
    destruct (int_unsigned (Pos.to_uint p) Hnil (digits_bound p Hlt)) as [Hpos Hneg];
    assert (Hz : Z.of_uint (Pos.to_uint p) = Z.pos p)
      by (unfold Z.of_uint; rewrite Hval; reflexivity);
    rewrite Hz in *;
    destruct (Pos.to_uint p); try congruence; assumption.
Qed.

(** [str] gives different integers different numerals. *)
Lemma str_of_int_inj (a b : Z) : str_of_int a = str_of_int b -> a = b.
Proof.
  unfold str_of_int. intros H.
  assert (R : forall n, NilZero.int_of_string (NilZero.string_of_int (Z.to_int n))
                        = Some (Z.to_int n)).
  { intros n. apply NilZero.isi; destruct n as [|p|p]; cbn [Z.to_int];
      try discriminate; intros [= E];
      exact (DecimalPos.Unsigned.to_uint_nonnil p E). }
  pose proof (R a) as Ha. rewrite H, R in Ha.
  apply DecimalZ.to_int_inj. congruence.
Qed.

End NumeralFacts.

(** ** Markers and separators in a text built around a numeral *)

Section MarkerFacts.

Local Arguments Ascii.eqb : simpl never.

Lemma all_chars_app (p : ascii -> bool) (a b : string) :
  all_chars p (a ++ b) = all_chars p a && all_chars p b.
Proof.
  induction a as [|c a IH]; [reflexivity|].
  cbn [append all_chars]. rewrite IH, andb_assoc. reflexivity.
Qed.

Lemma occurs_outside (q : ascii -> bool) (c : ascii) (s : string) :
  q c = false -> all_chars q s = true -> occurs c s = false.
Proof.
  intros Hc. induction s as [|a s IH]; [reflexivity|].
  cbn [all_chars occurs]. intros H. apply andb_true_iff in H as [Ha Hs].
  rewrite (IH Hs), orb_false_r.
  destruct (c =? a)%char eqn:E; [|reflexivity].
  apply Ascii.eqb_eq in E. subst a. congruence.
Qed.

Lemma startswith_cons (a b : ascii) (p s : string) :
  startswith (String a p) (String b s) = (a =? b)%char && startswith p s.
Proof. reflexivity. Qed.

(** A text in which the first character of [sub] does not occur holds no
    [sub] and is not cut by it. *)
Lemma contains_no_head (c : ascii) (p s : string) :
  occurs c s = false -> contains (String c p) s = false.
Proof.
  induction s as [|a s IH]; [reflexivity|].
  cbn [occurs]. intros H. apply orb_false_iff in H as [Ha Hs].
  cbn [contains]. rewrite startswith_cons, Ha, (IH Hs). reflexivity.
Qed.

Lemma split_no_head (c : ascii) (p s : string) :
  occurs c s = false -> split (String c p) s = [s].
Proof.
  unfold split. induction s as [|a s IH]; [reflexivity|].
  cbn [occurs]. intros H. apply orb_false_iff in H as [Ha Hs].
  cbn [split_from]. rewrite startswith_cons, Ha, (IH Hs). reflexivity.
Qed.

Lemma contains_outside (q : ascii -> bool) (c : ascii) (p s : string) :
  q c = false -> all_chars q s = true -> contains (String c p) s = false.
Proof. intros Hc Hs. apply contains_no_head, (occurs_outside q); assumption. Qed.

Lemma split_outside (q : ascii -> bool) (c : ascii) (p s : string) :
  q c = false -> all_chars q s = true -> split (String c p) s = [s].
Proof. intros Hc Hs. apply split_no_head, (occurs_outside q); assumption. Qed.

Lemma rstrip_no_space (s : string) :
  all_chars (fun c => negb (isspace c)) s = true -> rstrip s = s.
Proof.
  induction s as [|c s IH]; [reflexivity|].
  cbn [all_chars]. intros H. apply andb_true_iff in H as [Hc Hs].
  cbn [rstrip]. rewrite (IH Hs).
  destruct s; [|reflexivity].
  destruct (isspace c); [discriminate | reflexivity].
Qed.

Lemma rstrip_app_space (s : string) : rstrip (s ++ " ") = rstrip s.
Proof.
  induction s as [|c s IH]; [reflexivity|].
  cbn [append rstrip]. rewrite IH. reflexivity.
Qed.

(** One blank on each side of a text without blanks. *)
Lemma strip_padded (s : string) :
  all_chars (fun c => negb (isspace c)) s = true ->
  strip (String " " (s ++ " ")) = s.
Proof.
  intros H. unfold strip.
  change (lstrip (String " " (s ++ " "))) with (lstrip (s ++ " ")).
  destruct s as [|c s]; [reflexivity|].
  pose proof H as H'. cbn [all_chars] in H'. apply andb_true_iff in H' as [Hc _].
  cbn [append lstrip]. destruct (isspace c); [discriminate|].
  change (String c (s ++ " ")) with (String c s ++ " ")%string.
  rewrite rstrip_app_space. apply rstrip_no_space, H.
Qed.

Lemma int_after_space (s : string) : int (String " " s) = int s.
Proof. reflexivity. Qed.

Lemma split_from_skip_all (sep s : string) :
  split_from sep (String.length s) s = [""].
Proof. induction s as [|y s IH]; [reflexivity | exact IH]. Qed.

(** [text.split(sep)] when [sep] ends the text and its first character does
    not occur before. *)
Lemma split_suffix (c : ascii) (p a : string) :
  occurs c a = false ->
  split (String c p) (a ++ String c p) = [a; ""].
Proof.
  unfold split. induction a as [|x a IH].
  - intros _. cbn [append split_from].
    assert (E : startswith (String c p) (String c p) = true).
    { clear. generalize (String c p) as s. induction s as [|y s IH]; [reflexivity|].
      rewrite startswith_cons, Ascii.eqb_refl. exact IH. }
    rewrite E. cbn [String.length Nat.sub]. rewrite Nat.sub_0_r.
    f_equal. apply split_from_skip_all.
  - cbn [occurs]. intros H. apply orb_false_iff in H as [Hx Ha].
    cbn [append split_from]. rewrite startswith_cons, Hx, (IH Ha). reflexivity.
Qed.

End MarkerFacts.

(** Replaces each test [sub in pre ++ t], where [pre] is given in full and
    [t] holds only characters of the class [q], by its value. *)
Ltac settle_markers q t Ht :=
  repeat match goal with
         | |- context [contains (String ?c ?p) (?pre ++ t)%string] =>
             first
               [ change (contains (String c p) (pre ++ t)%string) with true
               | change (contains (String c p) (pre ++ t)%string)
                   with (contains (String c p) t);
                 rewrite (contains_outside q c p t eq_refl Ht) ]
         end.

(** After [settle_markers]: the rules that do not apply are dropped, the
    one cut of the response that is left is made, and the steps are run. *)
Ltac run_rule q t Ht :=
  unfold when; cbv iota;
  match goal with
  | |- context [split (String ?c ?p) (?pre ++ t)%string] =>
      change (split (String c p) (pre ++ t)%string)
        with ("" :: push " " (split (String c p) t));
      rewrite (split_outside q c p t eq_refl Ht)
  end;
  unfold try_except, bind, eval, assign, modify, pass, ret, index;
  cbn [push nth_error].

Section EchoFacts.

Lemma append_assoc (a b c : string) : ((a ++ b) ++ c = a ++ (b ++ c))%string.
Proof. induction a as [|x a IH]; [reflexivity|]. cbn [append]. rewrite IH. reflexivity. Qed.

Lemma numeral_measure (t : string) :
  all_chars numeral_char t = true -> all_chars measure_char (t ++ " mm") = true.
Proof.
  intros H. rewrite all_chars_app. apply andb_true_iff. split; [|reflexivity].
  apply (all_chars_impl numeral_char); [|exact H].
  intros c Hc. unfold measure_char. rewrite Hc. reflexivity.
Qed.

Lemma numeral_no_space (t : string) :
  all_chars numeral_char t = true ->
  all_chars (fun c => negb (isspace c)) t = true.
Proof. apply all_chars_impl, numeral_not_space. Qed.

End EchoFacts.

(** X1.  The echo of an integer.  Whatever the integer, inside or outside
    1..255, as long as its numeral has no more digits than [int] reads
    (4300), the line the device answers to a "set" command puts exactly that
    integer in exactly that field and leaves the rest of the configuration
    as it was; the unit after a wheel diameter is not read. *)
Theorem integer_echo_is_stored (n : Z) (cfg : Configuration) :
  (Z.abs n < 10 ^ Z.of_nat max_str_digits)%Z ->
  parse_config_response ("Motor pulley teeth set to: " ++ str_of_int n) cfg
  = (Return tt, set_motor_pulley_teeth n cfg) /\
  parse_config_response ("Wheel pulley teeth set to: " ++ str_of_int n) cfg
  = (Return tt, set_wheel_pulley_teeth n cfg) /\
  parse_config_response ("Motor poles set to: " ++ str_of_int n) cfg
  = (Return tt, set_motor_poles_count n cfg) /\
  parse_config_response ("Wheel diameter set to: " ++ str_of_int n) cfg
  = (Return tt, set_wheel_diameter_mm n cfg) /\
  parse_config_response ("Wheel diameter set to: " ++ str_of_int n ++ " mm") cfg
  = (Return tt, set_wheel_diameter_mm n cfg).
Proof.
  intros Hlen.
  pose proof (str_of_int_chars n) as Ht.
  pose proof (int_str_of_int n Hlen) as Hint.
  generalize dependent (str_of_int n). intros t Ht Hint.
  assert (Hstrip : strip (String " " t) = t)
    by (apply (strip_no_space t), numeral_no_space, Ht).
  split; [|split; [|split; [|split]]].
  - unfold parse_config_response. cbn [existsb].
    settle_markers numeral_char t Ht. run_rule numeral_char t Ht.
    rewrite Hstrip, Hint. reflexivity.
  - unfold parse_config_response. cbn [existsb].
    settle_markers numeral_char t Ht. run_rule numeral_char t Ht.
    rewrite Hstrip, Hint. reflexivity.
  - unfold parse_config_response. cbn [existsb].
    settle_markers numeral_char t Ht. run_rule numeral_char t Ht.
    rewrite Hstrip, Hint. reflexivity.
  - unfold parse_config_response. cbn [existsb].
    settle_markers numeral_char t Ht. run_rule numeral_char t Ht.
    change (split "mm" (String " " t)) with (push " " (split "mm" t)).
    rewrite (split_outside numeral_char "m" "m" t eq_refl Ht).
    cbn [push nth_error].
    rewrite Hstrip, Hint. reflexivity.
  - pose proof (numeral_measure t Ht) as Hu.
    unfold parse_config_response. cbn [existsb].
    settle_markers measure_char (t ++ " mm")%string Hu.
    run_rule measure_char (t ++ " mm")%string Hu.
    replace (String " " (t ++ " mm")) with (String " " (t ++ " ") ++ "mm")%string
      by (cbn [append]; rewrite append_assoc; reflexivity).
    rewrite (split_suffix "m" "m" (String " " (t ++ " "))).
    + cbn [nth_error].
      rewrite strip_padded by (apply numeral_no_space, Ht).
      rewrite Hint. reflexivity.
    + cbn [occurs]. rewrite occurs_app.
      rewrite (occurs_outside numeral_char "m" t eq_refl Ht). reflexivity.
Qed.

Lemma integer_echo_is_stored_witness :
  parse_config_response "Motor poles set to: 300" initial_config
  = (Return tt, set_motor_poles_count 300 initial_config) /\
  parse_config_response "Wheel diameter set to: 90 mm" initial_config
  = (Return tt, set_wheel_diameter_mm 90 initial_config).
Proof.
  split.
  - apply (proj1 (proj2 (proj2
             (integer_echo_is_stored 300 initial_config
                ltac:(vm_compute; reflexivity))))).
  - apply (proj2 (proj2 (proj2 (proj2
             (integer_echo_is_stored 90 initial_config
                ltac:(vm_compute; reflexivity)))))).
Defined.

Section DisplayEchoFacts.

Local Arguments Ascii.eqb : simpl never.

Lemma str_of_int_head (n : Z) :
  exists c s, str_of_int n = String c s /\ isspace c = false.
Proof.
  pose proof (str_of_int_chars n) as H.
  assert (Hne : str_of_int n <> "").
  { unfold str_of_int. destruct n as [|p|p]; cbn; try discriminate;
      unfold NilZero.string_of_uint;
      pose proof (DecimalPos.Unsigned.to_uint_nonnil p);
      destruct (Pos.to_uint p); try congruence; discriminate. }
  destruct (str_of_int n) as [|c s]; [congruence|].
  exists c, s. split; [reflexivity|].
  cbn [all_chars] in H. apply andb_true_iff in H as [Hc _].
  apply numeral_not_space in Hc. destruct (isspace c); [discriminate | reflexivity].
Qed.

Lemma rstrip_app (a b : string) :
  rstrip b <> "" -> rstrip (a ++ b) = (a ++ rstrip b)%string.
Proof.
  intros Hb. induction a as [|c a IH]; [reflexivity|].
  cbn [append rstrip]. rewrite IH.
  destruct (a ++ rstrip b)%string eqn:E; [|reflexivity].
  destruct a; [cbn in E; congruence | discriminate].
Qed.

Lemma split_ws_cons (c : ascii) (s : string) :
  isspace c = false ->
  split_ws (String c s) =
  match s with
  | "" => [String c ""]
  | String c' _ =>
      if isspace c' then String c "" :: split_ws s else push c (split_ws s)
  end.
Proof. intros H. cbn [split_ws]. rewrite H. reflexivity. Qed.

(** The first word of a text that starts with a word. *)
Lemma split_ws_first (t rest : string) :
  t <> "" -> all_chars (fun c => negb (isspace c)) t = true ->
  split_ws (t ++ String " " rest) = t :: split_ws rest.
Proof.
  induction t as [|c t IH]; [congruence|]. intros _ H.
  cbn [all_chars] in H. apply andb_true_iff in H as [Hc Ht].
  apply negb_true_iff in Hc.
  change (String c t ++ String " " rest)%string
    with (String c (t ++ String " " rest)).
  rewrite (split_ws_cons c _ Hc).
  destruct t as [|c2 t].
  - reflexivity.
  - pose proof Ht as Ht'. cbn [all_chars] in Ht'.
    apply andb_true_iff in Ht' as [Hc2 _]. apply negb_true_iff in Hc2.
    rewrite IH by (discriminate || exact Ht).
    cbn [append]. rewrite Hc2. reflexivity.
Qed.

End DisplayEchoFacts.

(** [one_line] for a label given in full, followed by a blank and [tail]. *)
Ltac labelled_line label tail Hnl :=
  match goal with
  | |- parse_config_display ?line _ = _ =>
      change line with (label ++ ":" ++ String " " tail)%string
  end;
  let Hc := fresh "Hc" in
  let Hn := fresh "Hn" in
  assert (Hc : occurs ":" label = false) by reflexivity;
  assert (Hn : occurs nlc (label ++ ":" ++ String " " tail) = false)
    by (rewrite occurs_app; cbn [occurs append]; rewrite Hnl; reflexivity);
  one_line Hc Hn.

(** X2.  An integer on a display line.  Whatever the integer, as long as its
    numeral has no more digits than [int] reads (4300), the line
    "label: integer" of a configuration block puts that integer in the field
    of the label and leaves the rest as it was; after "Wheel Diameter" the
    integer may be followed by a blank and the unit. *)
Theorem display_integer_is_stored (n : Z) (cfg : Configuration) :
  (Z.abs n < 10 ^ Z.of_nat max_str_digits)%Z ->
  parse_config_display ("Motor Pulley Teeth: " ++ str_of_int n) cfg
  = (Return tt, set_motor_pulley_teeth n cfg) /\
  parse_config_display ("Wheel Pulley Teeth: " ++ str_of_int n) cfg
  = (Return tt, set_wheel_pulley_teeth n cfg) /\
  parse_config_display ("Motor Poles: " ++ str_of_int n) cfg
  = (Return tt, set_motor_poles_count n cfg) /\
  parse_config_display ("Wheel Diameter: " ++ str_of_int n) cfg
  = (Return tt, set_wheel_diameter_mm n cfg) /\
  parse_config_display ("Wheel Diameter: " ++ str_of_int n ++ " mm") cfg
  = (Return tt, set_wheel_diameter_mm n cfg).
Proof.
  intros Hlen.
  pose proof (str_of_int_chars n) as Ht.
  pose proof (int_str_of_int n Hlen) as Hint.
  destruct (str_of_int_head n) as (c0 & s0 & Hhead & Hc0).
  generalize dependent (str_of_int n). intros t Ht Hint Hhead.
  assert (Hnl : occurs nlc t = false)
    by (apply (occurs_outside numeral_char); [reflexivity | exact Ht]).
  assert (Hstrip : strip (String " " t) = t)
    by (apply (strip_no_space t), numeral_no_space, Ht).
  split; [|split; [|split; [|split]]].
  - labelled_line "Motor Pulley Teeth" t Hnl.
    rewrite Hstrip, Hint. reflexivity.
  - labelled_line "Wheel Pulley Teeth" t Hnl.
    rewrite Hstrip, Hint. reflexivity.
  - labelled_line "Motor Poles" t Hnl.
    rewrite Hstrip, Hint. reflexivity.
  - labelled_line "Wheel Diameter" t Hnl.
    rewrite Hstrip.
    rewrite (contains_outside numeral_char " " "" t eq_refl Ht).
    unfold bind, eval. cbn beta iota. rewrite Hint. reflexivity.
  - assert (Hnl' : occurs nlc (t ++ " mm") = false)
      by (rewrite occurs_app, Hnl; reflexivity).
    assert (Hstrip' : strip (String " " (t ++ " mm")) = (t ++ " mm")%string).
    { unfold strip.
      change (lstrip (String " " (t ++ " mm"))) with (lstrip (t ++ " mm")).
      rewrite Hhead. cbn [append lstrip]. rewrite Hc0.
      change (String c0 (s0 ++ " mm")) with (String c0 s0 ++ " mm")%string.
      apply rstrip_app. discriminate. }
    labelled_line "Wheel Diameter" (t ++ " mm")%string Hnl'.
    rewrite Hstrip'.
    assert (Hsp : contains " " (t ++ " mm") = true).
    { rewrite contains_char, occurs_app. apply orb_true_iff. right. reflexivity. }
    rewrite Hsp.
    rewrite (split_ws_first t "mm") by
      (try apply numeral_no_space; try exact Ht; rewrite Hhead; discriminate).
    unfold bind, eval, index. cbn [nth_error]. cbn beta iota.
    rewrite Hint. reflexivity.
Qed.

Lemma display_integer_is_stored_witness :
  parse_config_display "Motor Poles: 300" initial_config
  = (Return tt, set_motor_poles_count 300 initial_config) /\
  parse_config_display "Wheel Diameter: 90 mm" initial_config
  = (Return tt, set_wheel_diameter_mm 90 initial_config).
Proof.
  split.
  - apply (proj1 (proj2 (proj2
             (display_integer_is_stored 300 initial_config
                ltac:(vm_compute; reflexivity))))).
  - apply (proj2 (proj2 (proj2 (proj2
             (display_integer_is_stored 90 initial_config
                ltac:(vm_compute; reflexivity)))))).
Defined.

(** ** Responses that set nothing *)

Section InertFacts.

Local Arguments Ascii.eqb : simpl never.

Lemma startswith_occurs (c : ascii) (sub s : string) :
  startswith sub s = true -> occurs c sub = true -> occurs c s = true.
Proof.
  revert s. induction sub as [|a sub IH]; intros s H Hc; [discriminate|].
  destruct s as [|b s]; [discriminate|].
  rewrite startswith_cons in H. apply andb_true_iff in H as [Hab Hs].
  apply Ascii.eqb_eq in Hab. subst b.
  cbn [occurs] in *. apply orb_true_iff in Hc as [Hc|Hc].
  - rewrite Hc. reflexivity.
  - rewrite (IH s Hs Hc). apply orb_true_r.
Qed.

(** A text that lacks a character of [sub] does not hold [sub]. *)
Lemma contains_needs_char (c : ascii) (sub s : string) :
  occurs c sub = true -> occurs c s = false -> contains sub s = false.
Proof.
  intros Hsub. induction s as [|b s IH]; intros Hs.
  - destruct sub; [discriminate | reflexivity].
  - cbn [occurs] in Hs. apply orb_false_iff in Hs as [Hb Hs'].
    cbn [contains]. rewrite (IH Hs'), orb_false_r.
    destruct (startswith sub (String b s)) eqn:E; [|reflexivity].
    pose proof (startswith_occurs c sub (String b s) E Hsub) as K.
    cbn [occurs] in K. rewrite Hb, Hs' in K. discriminate.
Qed.

End InertFacts.

(** X3.  A response that sets nothing.  Every rule but two looks for a text
    with a colon: a response without a colon that holds neither
    "Current Configuration" nor the PID header leaves the whole
    configuration as it was. *)
Theorem colon_free_response_is_inert (response : string) (cfg : Configuration) :
  contains ":" response = false ->
  contains "Current Configuration" response = false ->
  contains pid_header response = false ->
  parse_config_response response cfg = (Return tt, cfg).
Proof.
  intros Hcolon Hcur Hpid. rewrite contains_char in Hcolon.
  unfold pid_header in Hpid.
  unfold parse_config_response. cbn [existsb].
  rewrite Hcur, Hpid.
  repeat match goal with
         | |- context [contains ?sub response] =>
             rewrite (contains_needs_char ":" sub response eq_refl Hcolon)
         end.
  reflexivity.
Qed.

Lemma colon_free_response_is_inert_witness :
  parse_config_response "Odometer reset successfully" initial_config
  = (Return tt, initial_config).
Proof.
  apply (colon_free_response_is_inert "Odometer reset successfully" initial_config);
    reflexivity.
Defined.

(** X4.  Which parser writes which field.  The display parser never writes a
    PID field, the loop over the PID lines and the "set to:" rules never
    write [ble_connected]: a response that asks for no display block leaves
    [ble_connected] as it was, and a display block leaves the four PID
    fields as they were. *)
Theorem parsers_keep_foreign_fields (response : string) (cfg : Configuration) :
  (let cfg' := snd (parse_config_display response cfg) in
   pid_kp cfg' = pid_kp cfg /\ pid_ki cfg' = pid_ki cfg /\
   pid_kd cfg' = pid_kd cfg /\ pid_output_max cfg' = pid_output_max cfg)
  /\
  (display_requested response = false ->
   ble_connected (snd (parse_config_response response cfg)) = ble_connected cfg).
Proof.
  split.
  - destruct (parse_config_display_keeps_pid response) as (H1 & H2 & H3 & H4).
    cbv zeta. rewrite (H1 cfg), (H2 cfg), (H3 cfg), (H4 cfg). auto.
  - intros H.
    assert (K : keeps ble_connected (parse_config_response response)).
    { unfold parse_config_response.
      destruct (display_requested_false _ H) as [H1 H2].
      rewrite H1, H2. cbv iota. frame. }
    apply K.
Qed.

Lemma parsers_keep_foreign_fields_witness :
  ble_connected
    (snd (parse_config_response "PID Kp set to: 1.25" initial_config))
  = ble_connected initial_config.
Proof.
  exact (proj2 (parsers_keep_foreign_fields "PID Kp set to: 1.25" initial_config)
           eq_refl).
Defined.

(** ** The handlers: connection, history, exceptions *)

(** Splits a handler goal on the connection, the entry and the range
    test. *)
Ltac handler_cases :=
  run_handler;
  repeat match goal with
         | |- context [if ?c then _ else _] =>
             match c with
             | true => fail 1
             | false => fail 1
             | _ => destruct c eqn:?
             end
         | |- context [match ?x with Return _ => _ | Raise _ => _ end] =>
             is_var x; destruct x
         | e : exn |- context [match ?x with ValueError => _ | _ => _ end] =>
             is_var x; destruct x
         end;
  cbn beta iota delta [config is_connected sent negb fst snd].

(** X5.  No connection, no effect on [self].  Without a connection every
    handler returns at once: nothing is written to the serial port, and the
    configuration, the connection flag and the commands written so far stay
    as they were, whatever the entry holds.  The two check-box handlers then
    put their check box back: it is left the opposite of what the handler
    found. *)
Theorem disconnected_handler_is_inert (a : action) (self : App) :
  is_connected self = false ->
  handler a self = (Return tt, self) /\
  (forall throttle_var : bool,
     toggle_throttle throttle_var self = (Return (negb throttle_var), self)) /\
  (forall level_assist_var : bool,
     toggle_level_assistant level_assist_var self
     = (Return (negb level_assist_var), self)).
Proof.
  destruct self as [cfg connected out]. cbn [is_connected]. intros ->.
  split; [destruct a; reflexivity | split; intros v; reflexivity].
Qed.

Lemma disconnected_handler_is_inert_witness :
  handler (SetPidKp (Return (float_lit 3 2))) (mkApp initial_config false [])
  = (Return tt, mkApp initial_config false []) /\
  toggle_throttle true (mkApp initial_config false [])
  = (Return false, mkApp initial_config false []).
Proof.
  split.
  - apply (disconnected_handler_is_inert (SetPidKp (Return (float_lit 3 2)))
             (mkApp initial_config false [])).
    reflexivity.
  - apply (proj1 (proj2 (disconnected_handler_is_inert ResetOdometer
                           (mkApp initial_config false []) eq_refl)) true).
Defined.

(** X6.  What a handler does to the link.  A handler never changes
    [is_connected], never drops or reorders what was written before, and
    writes at most one command. *)
Theorem handler_writes_at_most_once (a : action) (self : App) :
  is_connected (snd (handler a self)) = is_connected self /\
  exists written,
    sent (snd (handler a self)) = sent self ++ written /\
    (List.length written <= 1)%nat.
Proof.
  destruct self as [cfg connected out].
  destruct a; handler_cases;
    (split; [reflexivity|]);
    first [ exists []; split; [symmetry; apply app_nil_r | auto]
          | eexists [_]; split; [reflexivity | auto] ].
Qed.

(** X7.  The exceptions a handler lets through.  A handler raises only in one
    case: there is a connection, the handler is one of the four that read
    an integer entry, and reading the entry raises something else than
    [ValueError]; that exception is then what the handler raises, and the
    state stays as it was: nothing is written and the configuration is not
    touched.  The PID handlers catch whatever the entry raises. *)
Theorem handler_raises_only_from_integer_entry (a : action) (self : App) (e : exn) :
  (fst (handler a self) = Raise e <->
   is_connected self = true /\ reads_integer a = Some (Raise e) /\ e <> ValueError)
  /\
  (fst (handler a self) = Raise e -> snd (handler a self) = self).
Proof.
  split.
  - destruct self as [cfg [] out]; split.
    2: { cbn [is_connected]. intros (_ & Hr & He).
         destruct a; cbn [reads_integer] in Hr; try discriminate;
           injection Hr as ->; destruct e; try congruence; reflexivity. }
    2: { destruct a; discriminate. }
    2: { intros (Hc & _). discriminate Hc. }
    destruct a; handler_cases; cbn [reads_integer]; try discriminate;
      intros [= <-];
      (split; [reflexivity | split; [reflexivity | intros ->; cbn in *; discriminate]]).
  - destruct self as [cfg connected out].
    destruct a; handler_cases; try discriminate; intros _; reflexivity.
Qed.

Lemma handler_raises_only_from_integer_entry_witness :
  fst (handler (SetMotorPulley (Raise TclError)) (mkApp initial_config true []))
  = Raise TclError /\
  snd (handler (SetMotorPulley (Raise TclError)) (mkApp initial_config true []))
  = mkApp initial_config true [].
Proof.
  assert (H : fst (handler (SetMotorPulley (Raise TclError))
                     (mkApp initial_config true [])) = Raise TclError).
  { apply (proj2 (proj1 (handler_raises_only_from_integer_entry
                           (SetMotorPulley (Raise TclError))
                           (mkApp initial_config true []) TclError))).
    split; [reflexivity | split; [reflexivity | discriminate]]. }
  split; [exact H|].
  exact (proj2 (handler_raises_only_from_integer_entry
                  (SetMotorPulley (Raise TclError))
                  (mkApp initial_config true []) TclError) H).
Defined.

(** X8.  The commands on the wire are the declared ones.  Whatever a handler
    writes starts with a name of [self.commands], and every name of
    [self.commands] is written by some handler when there is a
    connection. *)
Theorem handlers_write_the_declared_commands :
  (forall (a : action) (self : App) (c : command),
     In c (sent (snd (handler a self))) ->
     In c (sent self) \/
     exists name, command_name c = Return name /\ In name commands)
  /\
  (forall name, In name commands ->
     exists (a : action) (c : command),
       sent (snd (handler a (mkApp initial_config true []))) = [c] /\
       command_name c = Return name).
Proof.
  split.
  - intros a [cfg connected out] c.
    destruct a; handler_cases; intros Hin; auto;
      apply in_app_or in Hin as [Hin|[<-|[]]]; auto;
      right; eexists; (split; [reflexivity|]);
      cbn [commands In]; repeat first [left; reflexivity | right].
  - intros name Hin. cbn [commands In] in Hin.
    repeat (destruct Hin as [<-|Hin]);
      [ exists (ToggleThrottle false) | exists (ToggleLevelAssistant false)
      | exists ResetOdometer
      | exists (SetMotorPulley (Return 16%Z)) | exists (SetWheelPulley (Return 16%Z))
      | exists (SetWheelSize (Return 16%Z)) | exists (SetMotorPoles (Return 16%Z))
      | exists GetConfig | exists (CalibrateThrottle true) | exists GetCalibration
      | exists (SetPidKp (Return (float_lit 1 1)))
      | exists (SetPidKi (Return (float_lit 1 1)))
      | exists (SetPidKd (Return (float_lit 1 1)))
      | exists (SetPidOutputMax (Return (float_lit 48 1)))
      | exists GetPidParams | exists ShowHelp | destruct Hin ];
      eexists; split; reflexivity.
Qed.

Section RangeFacts.

Lemma flt_finite (a b : Q) : flt (Finite a) (Finite b) = true <-> (a < b)%Q.
Proof.
  cbn [flt]. rewrite negb_true_iff. split.
  - intros H. apply Qnot_le_lt. intros K. apply Qle_bool_iff in K. congruence.
  - intros H. destruct (Qle_bool b a) eqn:E; [|reflexivity].
    apply Qle_bool_iff in E. exfalso. exact (Qlt_not_le _ _ H E).
Qed.

Lemma out_of_range (lo hi q : Q) :
  (q < lo \/ hi < q)%Q ->
  flt (Finite q) (Finite lo) || flt (Finite hi) (Finite q) = true.
Proof.
  intros [H|H]; apply orb_true_iff; [left|right]; apply flt_finite; exact H.
Qed.

Lemma within_range (lo hi q : Q) :
  (lo <= q <= hi)%Q ->
  flt (Finite q) (Finite lo) || flt (Finite hi) (Finite q) = false.
Proof.
  intros [H1 H2]. apply orb_false_iff. split.
  - destruct (flt (Finite q) (Finite lo)) eqn:E; [|reflexivity].
    apply flt_finite in E. exfalso. exact (Qlt_not_le _ _ E H1).
  - destruct (flt (Finite hi) (Finite q)) eqn:E; [|reflexivity].
    apply flt_finite in E. exfalso. exact (Qlt_not_le _ _ E H2).
Qed.

End RangeFacts.

(** The bounds of the PID ranges are binary64 numbers: the literals stand
    for themselves. *)
Ltac exact_bounds :=
  repeat match goal with
         | |- context [float_lit ?num ?den] =>
             let v := eval vm_compute in (float_lit num den) in
             change (float_lit num den) with v
         end.

(** X9.  The PID ranges.  [set_pid_kp] turns away an entry below 0 or above
    10, [set_pid_ki] below 0 or above 2, [set_pid_kd] below 0 or above 1
    and [set_pid_output_max] below 10 or above 100, infinities included:
    nothing is written and the state stays as it was.  With a connection an
    entry inside the range, bounds included, is stored in the field and the
    command is written. *)
Theorem pid_validation (self : App) (q : Q) (negative : bool) :
  (((q < 0 \/ 10 < q)%Q -> set_pid_kp (Return (Finite q)) self = (Return tt, self)) /\
   ((q < 0 \/ 2 < q)%Q -> set_pid_ki (Return (Finite q)) self = (Return tt, self)) /\
   ((q < 0 \/ 1 < q)%Q -> set_pid_kd (Return (Finite q)) self = (Return tt, self)) /\
   ((q < 10 \/ 100 < q)%Q ->
    set_pid_output_max (Return (Finite q)) self = (Return tt, self)))
  /\
  (set_pid_kp (Return (Infinity negative)) self = (Return tt, self) /\
   set_pid_ki (Return (Infinity negative)) self = (Return tt, self) /\
   set_pid_kd (Return (Infinity negative)) self = (Return tt, self) /\
   set_pid_output_max (Return (Infinity negative)) self = (Return tt, self))
  /\
  (is_connected self = true ->
   let accepted (setter : pyfloat -> Configuration -> Configuration)
                (name : string) :=
     (Return tt,
      mkApp (setter (Finite q) (config self)) true
        (sent self ++ [WithFloat name (Finite q)])) in
   ((0 <= q <= 10)%Q ->
    set_pid_kp (Return (Finite q)) self = accepted set_kp "set_pid_kp ") /\
   ((0 <= q <= 2)%Q ->
    set_pid_ki (Return (Finite q)) self = accepted set_ki "set_pid_ki ") /\
   ((0 <= q <= 1)%Q ->
    set_pid_kd (Return (Finite q)) self = accepted set_kd "set_pid_kd ") /\
   ((10 <= q <= 100)%Q ->
    set_pid_output_max (Return (Finite q)) self
    = accepted set_output_max "set_pid_output_max ")).
Proof.
  destruct self as [cfg connected out].
  split; [|split].
  - (split; [|split; [|split]]); intros H; run_handler;
      exact_bounds;
      rewrite (out_of_range _ _ q H); destruct connected; reflexivity.
  - destruct connected, negative; (split; [|split; [|split]]); reflexivity.
  - cbn [is_connected]. intros ->. cbv zeta.
    (split; [|split; [|split]]); intros H; run_handler;
      exact_bounds;
      rewrite (within_range _ _ q H); reflexivity.
Qed.

Lemma pid_validation_witness :
  set_pid_kp (Return (Finite (Qmake 21 2))) (mkApp initial_config true [])
  = (Return tt, mkApp initial_config true []) /\
  set_pid_kp (Return (Finite (Qmake 10 1))) (mkApp initial_config true [])
  = (Return tt,
     mkApp (set_kp (Finite (Qmake 10 1)) initial_config) true
       [WithFloat "set_pid_kp " (Finite (Qmake 10 1))]).
Proof.
  split.
  - apply (proj1 (proj1 (pid_validation (mkApp initial_config true [])
                           (Qmake 21 2) false))).
    right. reflexivity.
  - apply (proj1 (proj2 (proj2 (pid_validation (mkApp initial_config true [])
                                  (Qmake 10 1) false)) eq_refl)).
    split; discriminate.
Defined.

(** ** The cleaner, line by line *)

Section CleanerLineFacts.

Local Arguments Ascii.eqb : simpl never.

(** No match of the escape pattern runs across a character that is in none
    of its classes. *)
Lemma escape_len_app_break (c : ascii) (s t : string) :
  is_single c = false -> (c =? "[")%char = false -> is_param c = false ->
  is_intermediate c = false -> is_final c = false ->
  escape_len (s ++ String c t) = escape_len s.
Proof.
  intros Es Eb Ep Ei Ef.
  destruct s as [|x r].
  - cbn [append]. unfold escape_len. rewrite Es, Eb. reflexivity.
  - change (String x r ++ String c t)%string with (String x (r ++ String c t)).
    unfold escape_len.
    destruct (is_single x); [reflexivity|].
    destruct (x =? "[")%char; [|reflexivity].
    rewrite (count_while_app_stop is_param r c t Ep).
    set (n1 := count_while is_param r).
    pose proof (count_while_le is_param r) as B1. fold n1 in B1.
    rewrite (drop_app n1 r) by lia.
    rewrite (count_while_app_stop is_intermediate (drop n1 r) c t Ei).
    set (n2 := count_while is_intermediate (drop n1 r)).
    pose proof (count_while_le is_intermediate (drop n1 r)) as B2. fold n2 in B2.
    rewrite drop_length in B2.
    rewrite (drop_app (n1 + n2) r) by lia.
    destruct (drop (n1 + n2) r) as [|f u]; [|reflexivity].
    cbn [append]. rewrite Ef. reflexivity.
Qed.

Lemma ansi_sub_app_nl (s t : string) (n : nat) :
  (n <= String.length s)%nat ->
  ansi_sub n (s ++ nl ++ t) = (ansi_sub n s ++ nl ++ ansi_sub 0 t)%string.
Proof.
  revert n. induction s as [|x s IH]; intros n Hn.
  - cbn [String.length] in Hn. replace n with 0%nat by lia. reflexivity.
  - change (String x s ++ nl ++ t)%string with (String x (s ++ nl ++ t)).
    destruct n as [|k].
    + cbn [ansi_sub].
      change (s ++ nl ++ t)%string with (s ++ String nlc t)%string.
      rewrite (escape_len_app_break nlc s t) by reflexivity.
      change (s ++ String nlc t)%string with (s ++ nl ++ t)%string.
      destruct (x =? esc)%char.
      * destruct (escape_len s) as [m|] eqn:E.
        -- apply IH, escape_len_bound, E.
        -- rewrite IH by lia. reflexivity.
      * rewrite IH by lia. reflexivity.
    + cbn [ansi_sub]. apply IH. cbn [String.length] in Hn. lia.
Qed.

Lemma ansi_escape_sub_app_nl (a b : string) :
  ansi_escape_sub (a ++ nl ++ b)
  = (ansi_escape_sub a ++ nl ++ ansi_escape_sub b)%string.
Proof. unfold ansi_escape_sub. apply ansi_sub_app_nl. lia. Qed.

Lemma filter_lines_app (xs ys : list string) :
  filter_lines (xs ++ ys) = filter_lines xs ++ filter_lines ys.
Proof. unfold filter_lines. rewrite map_app, filter_app. reflexivity. Qed.

Lemma join_app (x y : string) (xs ys : list string) :
  join nl ((x :: xs) ++ (y :: ys))
  = (join nl (x :: xs) ++ nl ++ join nl (y :: ys))%string.
Proof.
  revert x. induction xs as [|z xs IH]; intros x; [reflexivity|].
  change ((x :: z :: xs) ++ y :: ys) with (x :: ((z :: xs) ++ y :: ys)).
  change ((z :: xs) ++ y :: ys) with (z :: (xs ++ y :: ys)).
  rewrite join_cons2.
  change (z :: (xs ++ y :: ys)) with ((z :: xs) ++ y :: ys).
  rewrite IH, join_cons2, !append_assoc. reflexivity.
Qed.

Lemma startswith_app_nl (p x b : string) :
  occurs nlc p = false ->
  startswith p (x ++ nl ++ b) = startswith p x.
Proof.
  revert x. induction p as [|a p IH]; intros x Hp; [destruct x; reflexivity|].
  cbn [occurs] in Hp. apply orb_false_iff in Hp as [Ha Hp].
  destruct x as [|c x].
  - change ("" ++ nl ++ b)%string with (String nlc b).
    rewrite startswith_cons.
    rewrite Ascii.eqb_sym in Ha. rewrite Ha. reflexivity.
  - change (String c x ++ nl ++ b)%string with (String c (x ++ nl ++ b)).
    rewrite !startswith_cons, (IH x Hp). reflexivity.
Qed.

(** A text without newline occurs in two lines put together only if it
    occurs in one of them. *)
Lemma contains_app_nl (p a b : string) :
  p <> "" -> occurs nlc p = false ->
  contains p (a ++ nl ++ b) = contains p a || contains p b.
Proof.
  intros Hne Hp. induction a as [|c a IH].
  - change ("" ++ nl ++ b)%string with (String nlc b).
    destruct p as [|x p]; [congruence|].
    cbn [contains]. rewrite startswith_cons.
    cbn [occurs] in Hp. apply orb_false_iff in Hp as [Hx _].
    rewrite Ascii.eqb_sym in Hx. rewrite Hx. reflexivity.
  - change (String c a ++ nl ++ b)%string with (String c (a ++ nl ++ b)).
    cbn [contains].
    change (String c (a ++ nl ++ b)) with (String c a ++ nl ++ b)%string.
    rewrite (startswith_app_nl p (String c a) b Hp), IH, orb_assoc. reflexivity.
Qed.

Lemma contains_join (p : string) (lines : list string) :
  p <> "" -> occurs nlc p = false ->
  contains p (join nl lines) = true ->
  exists line, In line lines /\ contains p line = true.
Proof.
  intros Hne Hp. induction lines as [|x [|y t] IH]; intros H.
  - destruct p; [congruence | discriminate].
  - exists x. split; [left; reflexivity | exact H].
  - rewrite join_cons2, (contains_app_nl p _ _ Hne Hp) in H.
    apply orb_true_iff in H as [H|H].
    + exists x. split; [left; reflexivity | exact H].
    + destruct (IH H) as [line [Hin Hl]]. exists line. split; [right; exact Hin | exact Hl].
Qed.

Lemma skip_patterns_plain (p : string) :
  In p skip_patterns -> p <> "" /\ occurs nlc p = false.
Proof.
  intros Hin. cbn [skip_patterns In] in Hin.
  repeat (destruct Hin as [<-|Hin]; [split; [discriminate | reflexivity]|]).
  destruct Hin.
Qed.

End CleanerLineFacts.

(** X10.  The cleaned text holds no noise.  Whatever the input, none of the
    verbose-log markers occurs anywhere in the text [clean_response]
    returns. *)
Theorem clean_response_drops_noise (response text p : string) :
  clean_response response = Some text ->
  In p skip_patterns ->
  contains p text = false.
Proof.
  intros E Hin.
  apply clean_response_some in E as (lines & Hne & -> & _ & Hall).
  destruct (skip_patterns_plain p Hin) as [Hp Hnl].
  destruct (contains p (join nl lines)) eqn:C; [|reflexivity].
  destruct (contains_join p lines Hp Hnl C) as [line [Hl Hc]].
  rewrite Forall_forall in Hall. destruct (Hall line Hl) as (_ & _ & Hk).
  apply keep_line_true in Hk as (_ & _ & Hk).
  assert (K : existsb (fun skip_pattern => contains skip_pattern line) skip_patterns = true)
    by (apply existsb_exists; exists p; auto).
  congruence.
Qed.

Lemma clean_response_drops_noise_witness :
  contains "USB_SERIAL: Level assistant:"
    ("Level assistant: ENABLED" ++ nl ++ "ok") = false.
Proof.
  apply (clean_response_drops_noise
           ("I (1234) USB_SERIAL: Level assistant: ENABLED" ++ nl ++
            "Level assistant: ENABLED" ++ nl ++ " > " ++ nl ++ "ok")).
  - reflexivity.
  - cbn [skip_patterns In]. do 8 right. left. reflexivity.
Defined.

(** X11.  The cleaner works line by line.  Cleaning two texts joined by a
    newline gives the two cleaned texts joined by a newline, an absent one
    counting for nothing: no escape sequence, no marker and no trimming
    reaches across a newline. *)
Theorem clean_response_app (a b : string) :
  clean_response (a ++ nl ++ b)
  = merge_cleaned (clean_response a) (clean_response b).
Proof.
  unfold clean_response.
  rewrite ansi_escape_sub_app_nl, split_nl_app, filter_lines_app.
  destruct (filter_lines (split nl (ansi_escape_sub a))) as [|x xs];
    destruct (filter_lines (split nl (ansi_escape_sub b))) as [|y ys];
    cbn [merge_cleaned app]; try reflexivity.
  - rewrite app_nil_r. reflexivity.
  - change (x :: xs ++ y :: ys) with ((x :: xs) ++ y :: ys).
    rewrite join_app. reflexivity.
Qed.

(** ** The same response twice *)

Section SettleFacts.

Context {V : Type} (f : Configuration -> V).

Lemma settles_pass : settles f pass.
Proof. split; [apply returns_pass | left; reflexivity]. Qed.

Lemma settles_seq (m1 m2 : py Configuration unit) :
  settles f m1 -> settles f m2 -> settles f (bind m1 (fun _ => m2)).
Proof.
  intros [R1 S1] [R2 S2]. split; [apply returns_bind; auto|].
  assert (E : forall st, snd (bind m1 (fun _ => m2) st) = snd (m2 (snd (m1 st)))).
  { intros st. unfold bind. destruct (R1 st) as [a Ha].
    destruct (m1 st) as [[a'|e] st']; [reflexivity | discriminate]. }
  destruct S2 as [K2|[v2 C2]].
  - destruct S1 as [K1|[v1 C1]].
    + left. intros st. rewrite E, K2, K1. reflexivity.
    + right. exists v1. intros st. rewrite E, K2, C1. reflexivity.
  - right. exists v2. intros st. rewrite E, C2. reflexivity.
Qed.

Lemma settles_for_each {A} (xs : list A) (body : A -> py Configuration unit) :
  (forall x, settles f (body x)) -> settles f (for_each xs body).
Proof.
  intros H. induction xs as [|x xs IH]; [apply settles_pass|].
  cbn [for_each]. apply settles_seq; auto.
Qed.

Lemma settles_when (c : bool) (m : py Configuration unit) :
  settles f m -> settles f (when c m).
Proof. intros H. destruct c; [exact H | apply settles_pass]. Qed.

Lemma settles_try (m h : py Configuration unit) (handles : exn -> bool) :
  settles f m -> settles f (try_except m handles h).
Proof.
  intros [R S].
  assert (E : forall st, try_except m handles h st = m st).
  { intros st. unfold try_except. destruct (R st) as [a Ha].
    destruct (m st) as [[a'|e] st']; [reflexivity | discriminate]. }
  split; [apply returns_try, R|].
  destruct S as [K|[v C]]; [left | right; exists v]; intros st; rewrite E; auto.
Qed.

Lemma settles_twice (m : py Configuration unit) (st : Configuration) :
  settles f m -> f (snd (m (snd (m st)))) = f (snd (m st)).
Proof.
  intros [_ [K|[v C]]]; [apply K | rewrite !C; reflexivity].
Qed.

End SettleFacts.

(** One rule, or the body of a loop: the tests on the text are decided, then
    the component is either kept or set. *)
Ltac settle_leaf :=
  split;
  [ frame
  | unfold when, try_except, bind, eval, assign, modify, pass, ret, raise;
    repeat (cbn beta iota;
            match goal with
            | |- context [contains ?a ?b] => destruct (contains a b)
            | |- context [mem ?a ?b] => destruct (mem a b)
            | |- context [index ?a ?b] => destruct (index a b)
            | |- context [split1 ?a ?b] =>
                destruct (split1 a b) as [|? [|? [|? ?]]]
            | |- context [float ?a] => destruct (float a)
            | |- context [int ?a] => destruct (int a)
            end);
    first [ left; intros st; reflexivity
          | right; eexists; intros st; cbn; reflexivity ] ].

Ltac settle :=
  repeat first
    [ apply settles_seq
    | apply settles_for_each; intros ?
    | apply settles_pass
    | match goal with
      | |- settles _ (when _ (for_each _ _)) => apply settles_when; cbv zeta
      | |- settles _ (when _ (let _ := _ in _)) => apply settles_when; cbv zeta
      | |- settles _ (if ?c then parse_config_display _ else _) => destruct c
      | |- settles _ (parse_config_display _) =>
          unfold parse_config_display; cbv zeta
      end
    | settle_leaf ].

Section TwiceFacts.

Lemma configuration_ext (c d : Configuration) :
  invert_throttle c = invert_throttle d ->
  level_assistant c = level_assistant d ->
  motor_pulley c = motor_pulley d ->
  wheel_pulley c = wheel_pulley d ->
  wheel_diameter_mm c = wheel_diameter_mm d ->
  motor_poles c = motor_poles d ->
  ble_connected c = ble_connected d ->
  pid_kp c = pid_kp d -> pid_ki c = pid_ki d -> pid_kd c = pid_kd d ->
  pid_output_max c = pid_output_max d ->
  c = d.
Proof. destruct c, d. cbn. intros. subst. reflexivity. Qed.

Lemma parse_config_response_settles (response : string) :
  let m := parse_config_response response in
  settles invert_throttle m /\ settles level_assistant m /\
  settles motor_pulley m /\ settles wheel_pulley m /\
  settles wheel_diameter_mm m /\ settles motor_poles m /\
  settles ble_connected m /\
  settles pid_kp m /\ settles pid_ki m /\ settles pid_kd m /\
  settles pid_output_max m.
Proof.
  cbv zeta. unfold parse_config_response.
  repeat match goal with |- _ /\ _ => split end;
    apply settles_try; settle.
Qed.

End TwiceFacts.

(** X12.  The same response twice.  Parsing a response a second time changes
    nothing: every field a response writes gets a value that the response
    alone decides.  The same holds for [process_response], which cleans
    first. *)
Theorem repeated_response_changes_nothing (response : string) (cfg : Configuration) :
  parse_config_response response (snd (parse_config_response response cfg))
  = parse_config_response response cfg
  /\
  process_response response (snd (process_response response cfg))
  = process_response response cfg.
Proof.
  assert (P : forall r c,
             parse_config_response r (snd (parse_config_response r c))
             = parse_config_response r c).
  { intros r c.
    destruct (parse_config_response_settles r)
      as (S1 & S2 & S3 & S4 & S5 & S6 & S7 & S8 & S9 & S10 & S11).
    pose proof (proj1 S1) as R.
    apply eq_trans with (Return tt, snd (parse_config_response r c));
      [|symmetry; apply returns_unit, R].
    rewrite (returns_unit _ (snd (parse_config_response r c)) R).
    f_equal. apply configuration_ext; apply settles_twice; assumption. }
  split; [apply P|].
  unfold process_response.
  destruct (clean_response response) as [cleaned|]; [|reflexivity].
  destruct (cleaned =? "")%string; [reflexivity | apply P].
Qed.

(** ** The connection button *)

(** X13.  The link is never half open.  However often the connection button
    is pressed and whatever opening a port does, the link is either as at
    start, with no port and not connected, or connected with the port that
    one of the presses opened: [is_connected] holds exactly when
    [serial_port] is set.  A press on a connected link always disconnects;
    a press whose port does not open leaves the link as it was. *)
Theorem link_is_open_or_closed (openings : list (outcome string)) :
  let self := Connection.presses openings Connection.initial in
  (self = Connection.initial \/
   exists opened,
     In (Return opened) openings /\
     self = Connection.mkLink (Some opened) true)
  /\
  (Connection.is_connected self = true <-> Connection.serial_port self <> None)
  /\
  (forall opening,
     Connection.toggle_connection opening self =
     (Return tt,
      if Connection.is_connected self then Connection.initial
      else match opening with
           | Return opened => Connection.mkLink (Some opened) true
           | Raise _ => self
           end)).
Proof.
  cbv zeta.
  assert (Step : forall opening self,
            self = Connection.initial \/
            (exists opened, self = Connection.mkLink (Some opened) true) ->
            Connection.toggle_connection opening self =
            (Return tt,
             if Connection.is_connected self then Connection.initial
             else match opening with
                  | Return opened => Connection.mkLink (Some opened) true
                  | Raise _ => self
                  end)).
  { intros opening self [->|[opened ->]]; [destruct opening|]; reflexivity. }
  assert (Reach : forall rest done self,
            (self = Connection.initial \/
             exists opened,
               In (Return opened) done /\
               self = Connection.mkLink (Some opened) true) ->
            let final := Connection.presses rest self in
            final = Connection.initial \/
            exists opened,
              In (Return opened) (done ++ rest) /\
              final = Connection.mkLink (Some opened) true).
  { induction rest as [|opening rest IH]; intros done self H.
    - cbn. rewrite app_nil_r. exact H.
    - cbn [Connection.presses].
      replace (done ++ opening :: rest) with ((done ++ [opening]) ++ rest)
        by (rewrite <- app_assoc; reflexivity).
      apply IH.
      rewrite Step
        by (destruct H as [->|(o & _ & ->)]; [left | right; exists o]; reflexivity).
      cbn [snd].
      destruct H as [->|(o & _ & ->)];
        cbn [Connection.is_connected Connection.initial].
      + destruct opening as [opened|e]; [|left; reflexivity].
        right. exists opened.
        split; [apply in_or_app; right; left; reflexivity | reflexivity].
      + left. reflexivity. }
  pose proof (Reach openings [] Connection.initial (or_introl eq_refl)) as R.
  cbn [app] in R. cbv zeta in R.
  split; [exact R | split].
  - destruct R as [->|(o & _ & ->)]; cbn; split; congruence.
  - intros opening. apply Step.
    destruct R as [->|(o & _ & ->)]; [left | right; exists o]; reflexivity.
Qed.

(** ** The log *)

Ltac status_line body :=
  exists "[OK] ", body; split; [reflexivity|];
  split; [cbn; tauto | right; split; [cbn; tauto | auto]].

(** X14.  What reaches the log.  [log_message] writes nothing only for a
    message that holds both "help" and "Show this help message"; otherwise it
    writes one line that ends with a newline and is made of one of seven
    tags followed by the message itself or, for a status message, by one of
    four fixed status lines. *)
Theorem log_message_shape (message : string) :
  match log_message message with
  | None =>
      contains "help" message = true /\
      contains "Show this help message" message = true
  | Some text =>
      exists tag body,
        text = (tag ++ body ++ nl)%string /\ In tag log_tags /\
        (body = message \/
         (In body status_lines /\
          (contains "Throttle inversion:" message = true \/
           contains "Level assistant:" message = true)))
  end.
Proof.
  unfold log_message.
  repeat match goal with
         | |- context [if ?c then _ else _] =>
             lazymatch c with
             | context [if _ then _ else _] => fail
             | _ => destruct c eqn:?
             end
         end;
    cbv zeta;
    first
      [ match goal with
        | H : _ && _ = true |- _ /\ _ => apply andb_true_iff in H; exact H
        end
      | solve [ exists "", message; split; [reflexivity|];
                split; [cbn; tauto | left; reflexivity] ]
      | solve [ eexists _, message; split; [reflexivity|];
                split; [cbn; tauto | left; reflexivity] ]
      | solve [ status_line "Throttle inversion: enabled" ]
      | solve [ status_line "Throttle inversion: disabled" ]
      | solve [ status_line "Level assistant: enabled" ]
      | solve [ status_line "Level assistant: disabled" ] ].
Qed.

(** ** Port enumeration *)

Section PortFacts.

Lemma com_ports_nodup :
  NoDup (map (fun i => ("COM" ++ str_of_int (Z.of_nat i + 1))%string) (seq 0 256)).
Proof.
  apply Injective_map_NoDup; [|apply seq_NoDup].
  intros i j H. cbn [append] in H. injection H as H.
  apply str_of_int_inj in H. lia.
Qed.

End PortFacts.

(** X15.  The ports reported on Windows.  On a platform whose name starts with
    "win" the ports reported are, in rising order and without repetition,
    exactly the names COM1 to COM256 that open; on a platform that is none of
    the four known ones the function raises. *)
Theorem windows_ports (platform : string) (glob : string -> list string)
    (openable : string -> bool) :
  (startswith "win" platform = true ->
   exists ports,
     get_available_ports platform glob openable = Some ports /\
     NoDup ports /\
     forall port,
       In port ports <->
       openable port = true /\
       exists k, (1 <= k <= 256)%Z /\ port = ("COM" ++ str_of_int k)%string)
  /\
  (startswith "win" platform = false -> startswith "linux" platform = false ->
   startswith "cygwin" platform = false -> startswith "darwin" platform = false ->
   get_available_ports platform glob openable = None).
Proof.
  split.
  - intros Hwin. unfold get_available_ports. rewrite Hwin. cbv zeta.
    eexists. split; [reflexivity|]. split.
    + apply NoDup_filter, com_ports_nodup.
    + intros port. rewrite filter_In, in_map_iff. split.
      * intros [[i [Hi Hin]] Hopen]. split; [exact Hopen|].
        apply in_seq in Hin. exists (Z.of_nat i + 1)%Z. split; [lia | auto].
      * intros [Hopen [k [Hk ->]]]. split; [|exact Hopen].
        exists (Z.to_nat (k - 1)). split.
        -- do 2 f_equal. lia.
        -- apply in_seq. lia.
  - intros H1 H2 H3 H4. unfold get_available_ports.
    rewrite H1, H2, H3, H4. reflexivity.
Qed.

Lemma windows_ports_witness :
  (exists ports,
     get_available_ports "win32" (fun _ => []) (String.eqb "COM3") = Some ports /\
     NoDup ports /\
     forall port,
       In port ports <->
       (port =? "COM3")%string = true /\
       exists k, (1 <= k <= 256)%Z /\ port = ("COM" ++ str_of_int k)%string)
  /\
  get_available_ports "freebsd13" (fun _ => []) (fun _ => true) = None.
Proof.
  split.
  - destruct (proj1 (windows_ports "win32" (fun _ => []) (String.eqb "COM3")) eq_refl)
      as (ports & E & N & I).
    exists ports. split; [exact E|]. split; [exact N|].
    intros port. rewrite (I port), String.eqb_sym. reflexivity.
  - apply (proj2 (windows_ports "freebsd13" (fun _ => []) (fun _ => true)));
      reflexivity.
Defined.

(** ** The build command *)

(** X16.  The build command names no missing file.  The command always starts
    with "pyinstaller" and holds the script; it holds the icon option
    exactly when the icon was found, and an "--add-data" option exactly when
    "requirements.txt" was found at both checks, with ";" before the target
    on a platform whose name starts with "win" and ":" elsewhere. *)
Theorem build_command_options
    (requirements_found icon_found requirements_still_found : bool)
    (platform : string) :
  let cmd :=
    build_command requirements_found icon_found requirements_still_found platform in
  hd_error cmd = Some "pyinstaller" /\
  In "esp32_controller.py" cmd /\
  (In "--icon=icon.ico" cmd <-> icon_found = true) /\
  (existsb (startswith "--icon") cmd = icon_found) /\
  (existsb (startswith "--add-data") cmd
   = requirements_found && requirements_still_found) /\
  (forall arg, In arg cmd -> startswith "--add-data" arg = true ->
     arg = if startswith "win" platform
           then "--add-data=requirements.txt;."
           else "--add-data=requirements.txt:.").
Proof.
  unfold build_command.
  destruct requirements_found, icon_found, requirements_still_found,
    (startswith "win" platform);
    cbv zeta; cbn [negb];
    (split; [reflexivity|]);
    (split; [cbn; tauto|]);
    (split; [split; [try reflexivity;
                     cbn; intros H;
                     repeat (destruct H as [H|H]; [discriminate H|]); destruct H
                    | try discriminate; intros _; cbn; tauto]|]);
    (split; [reflexivity|]);
    (split; [reflexivity|]);
    cbn; intros arg H;
    repeat (destruct H as [<-|H]; [try discriminate; reflexivity|]);
    destruct H.
Qed.

Lemma build_command_options_witness :
  build_command true false true "linux"
  = [ "pyinstaller"; "--onefile"; "--windowed"; "--name=ESP32_Controller";
      "esp32_controller.py"; "--add-data=requirements.txt:." ] /\
  "--add-data=requirements.txt:." = "--add-data=requirements.txt:.".
Proof.
  split; [reflexivity|].
  destruct (build_command_options true false true "linux") as (_ & _ & _ & _ & _ & H).
  apply (H "--add-data=requirements.txt:."); [|reflexivity].
  cbn. tauto.
Defined.

Lemma handlers_write_the_declared_commands_witness :
  In (Plain "set_wheel_size 90") [Plain "get_config"] \/
  exists name, command_name (Plain "set_wheel_size 90") = Return name /\ In name commands.
Proof.
  apply (proj1 handlers_write_the_declared_commands
           (SetWheelSize (Return 90%Z)) (mkApp initial_config true [Plain "get_config"])).
  cbn. tauto.
Defined.

(** ** More on the two parsers *)

(** X17.  A display block is read line by line.  [parse_config_display] never
    raises, and a block made of two texts joined by a newline is handled as
    the first text and then the second one: a later line overrides an
    earlier line on the same field, and nothing else carries over from line
    to line. *)
Theorem display_lines_in_order (a b : string) (cfg : Configuration) :
  fst (parse_config_display a cfg) = Return tt /\
  parse_config_display (a ++ nl ++ b) cfg
  = parse_config_display b (snd (parse_config_display a cfg)).
Proof.
  split; [|apply parse_config_display_app].
  rewrite (returns_unit _ cfg (parse_config_display_returns a)). reflexivity.
Qed.

(** X18.  The level-assistant switch.  When the response asks for no display
    block, [level_assistant] ends true if "Level assistant: ENABLED" occurs
    anywhere in the response, false if it does not and
    "Level assistant: DISABLED" occurs, and unchanged otherwise; the throttle
    lines of the same response have no part in it. *)
Theorem level_assistant_enabled_first (response : string) (cfg : Configuration) :
  display_requested response = false ->
  level_assistant (snd (parse_config_response response cfg)) =
    if contains "Level assistant: ENABLED" response then true
    else if contains "Level assistant: DISABLED" response then false
    else level_assistant cfg.
Proof.
  intros H. apply (parse_config_response_level_assistant response H).
Qed.

Lemma level_assistant_enabled_first_witness :
  level_assistant
    (snd (parse_config_response
            ("Throttle inversion: ENABLED" ++ nl ++ "Level assistant: DISABLED")
            (set_level_assistant true initial_config))) = false.
Proof.
  exact (level_assistant_enabled_first
           ("Throttle inversion: ENABLED" ++ nl ++ "Level assistant: DISABLED")
           (set_level_assistant true initial_config) eq_refl).
Defined.
